(** * Retrieval pipeline of the chat backend: a shallow embedding of
      services/rag_service.py and services/audio_service.py, with the
      conversation memory (services/memory_service.py) and the handling of
      the messages of a request (utils/chat_utils.py,
      services/media_processing_service.py, services/qwen_chat_service.py,
      routes/chat.py), and its properties.

    Conventions of the embedding.
    - A Python [str] is a [string]; non-ASCII text is carried as its UTF-8
      bytes.  [str.lower], [str.strip] and [str.split] act on the ASCII
      range, and a slice [s[i:j]] counts bytes, the characters of ASCII
      text.
    - A Python [dict] is an association list in insertion order (the order
      [sorted(scores, ...)] iterates in).
    - The [float] scores [1.0 / (k + rank)] and their sums are exact
      rationals of [Q]; rounding is not modelled.
    - A raised exception is the [Raise] case of [result].  Calls to the
      providers (completion model, embedding model, vector index, speech
      model, chat endpoint, memory service) are answered by an environment
      of oracles, which may answer with an exception, and are recorded in
      a trace together with the warnings and errors logged.
    - A conversation history is a list of messages with a role and a
      content; [None] and the empty list are the same history. *)

From Stdlib Require Import String Ascii List ZArith QArith Lia Lqa Bool.
From Stdlib Require Import DecimalString.
From Stdlib Require Import Sorted Permutation.
Import ListNotations.

Open Scope string_scope.
Open Scope list_scope.
Open Scope Z_scope.

(** ** Exceptions and results *)

Inductive exn : Type :=
| ZeroDivisionError
| KeyError (key : string)
| IndexError
| ProviderError (what : string).

Inductive result (A : Type) : Type :=
| Ok (a : A)
| Raise (e : exn).

Arguments Ok {A} a.
Arguments Raise {A} e.

(** ** Python dictionaries keyed by strings *)

Module Dict.
Section WithValue.
Context {V : Type}.

Definition t := list (string * V).

Fixpoint get (d : t) (k : string) : option V :=
  match d with
  | [] => None
  | (k', v) :: d' => if String.eqb k' k then Some v else get d' k
  end.

(** [d[k] = v]: an existing key keeps its place, a new one goes last. *)
Fixpoint set (d : t) (k : string) (v : V) : t :=
  match d with
  | [] => [(k, v)]
  | (k', v') :: d' =>
      if String.eqb k' k then (k, v) :: d' else (k', v') :: set d' k v
  end.

Definition keys (d : t) : list string := map fst d.

Definition mem (d : t) (k : string) : bool :=
  match get d k with Some _ => true | None => false end.

(** [d.update(e)] *)
Definition update (d e : t) : t :=
  fold_left (fun acc kv => set acc (fst kv) (snd kv)) e d.
End WithValue.
Arguments t V : clear implicits.
End Dict.

(** ** Python strings *)

Module PyStr.

Definition nl : string := String (ascii_of_nat 10) "".
Definition dquote : string := String (ascii_of_nat 34) "".

(** [s.startswith(p)] *)
Fixpoint startswith (p s : string) : bool :=
  match p, s with
  | EmptyString, _ => true
  | String _ _, EmptyString => false
  | String a p', String b s' => Ascii.eqb a b && startswith p' s'
  end.

Fixpoint skip (n : nat) (s : string) : string :=
  match n, s with
  | O, _ => s
  | S _, EmptyString => EmptyString
  | S n', String _ s' => skip n' s'
  end.

Fixpoint take (n : nat) (s : string) : string :=
  match n, s with
  | O, _ => EmptyString
  | S _, EmptyString => EmptyString
  | S n', String c s' => String c (take n' s')
  end.

(** A slice bound: a negative index counts from the end, and the bound
    is clipped to the string. *)
Definition clamp (len : nat) (i : Z) : nat :=
  if i <? 0 then Z.to_nat (Z.max 0 (i + Z.of_nat len))
  else Nat.min (Z.to_nat i) len.

(** [s[i:j]], [s[i:]] and [s[:j]] *)
Definition slice (s : string) (i j : Z) : string :=
  let a := clamp (String.length s) i in
  let b := clamp (String.length s) j in
  take (b - a) (skip a s).

Definition slice_from (s : string) (i : Z) : string :=
  skip (clamp (String.length s) i) s.

Definition slice_to (s : string) (j : Z) : string :=
  take (clamp (String.length s) j) s.

(** First position of [s], counted from [i], at which [sub] starts. *)
Fixpoint find_at (sub s : string) (i : nat) : option nat :=
  if startswith sub s then Some i
  else match s with
       | EmptyString => None
       | String _ s' => find_at sub s' (S i)
       end.

(** [s.find(sub, start)]: the lowest index at or after [start], or -1. *)
Definition find (s sub : string) (start : Z) : Z :=
  let len := Z.of_nat (String.length s) in
  let a := if start <? 0 then Z.max 0 (start + len) else start in
  if len <? a then -1
  else match find_at sub (skip (Z.to_nat a) s) (Z.to_nat a) with
       | Some i => Z.of_nat i
       | None => -1
       end.

(** [sub in s] *)
Definition contains (sub s : string) : bool :=
  match find_at sub s 0 with Some _ => true | None => false end.

(** [c.isspace()] on the ASCII range. *)
Definition is_space (c : ascii) : bool :=
  let n := nat_of_ascii c in
  ((9 <=? n) && (n <=? 13) || (28 <=? n) && (n <=? 32))%nat.

Fixpoint lstrip_with (p : ascii -> bool) (s : string) : string :=
  match s with
  | EmptyString => EmptyString
  | String c s' => if p c then lstrip_with p s' else s
  end.

Fixpoint rstrip_with (p : ascii -> bool) (s : string) : string :=
  match s with
  | EmptyString => EmptyString
  | String c s' =>
      match rstrip_with p s' with
      | EmptyString => if p c then EmptyString else String c EmptyString
      | r => String c r
      end
  end.

Definition strip_with (p : ascii -> bool) (s : string) : string :=
  rstrip_with p (lstrip_with p s).

(** [s.strip()] *)
Definition strip (s : string) : string := strip_with is_space s.

(** [s.strip(chars)] *)
Definition strip_chars (chars s : string) : string :=
  strip_with (fun c => existsb (Ascii.eqb c) (list_ascii_of_string chars)) s.

(** [s.split(sep)] for a one-character separator. *)
Fixpoint split_on (sep : ascii) (s : string) : list string :=
  match s with
  | EmptyString => [EmptyString]
  | String c s' =>
      if Ascii.eqb c sep then EmptyString :: split_on sep s'
      else match split_on sep s' with
           | [] => [String c EmptyString]
           | h :: t => String c h :: t
           end
  end.

(** [s.split()[0]]: the first whitespace-delimited word, if any. *)
Fixpoint take_word (s : string) : string :=
  match s with
  | EmptyString => EmptyString
  | String c s' => if is_space c then EmptyString else String c (take_word s')
  end.

Definition first_word (s : string) : option string :=
  match lstrip_with is_space s with
  | EmptyString => None
  | w => Some (take_word w)
  end.

Definition lower_char (c : ascii) : ascii :=
  let n := nat_of_ascii c in
  if ((65 <=? n) && (n <=? 90))%nat then ascii_of_nat (n + 32) else c.

(** [s.lower()] on the ASCII range. *)
Fixpoint lower (s : string) : string :=
  match s with
  | EmptyString => EmptyString
  | String c s' => String (lower_char c) (lower s')
  end.

(** Truth value of a string: non-empty. *)
Definition truthy (s : string) : bool := negb (String.eqb s "").

(** [sep.join(parts)] *)
Definition join (sep : string) (parts : list string) : string :=
  String.concat sep parts.

(** [str(n)] for an integer. *)
Definition str_of_int (n : Z) : string :=
  NilEmpty.string_of_int (Z.to_int n).

(** [xs[-n:]] *)
Definition last_n {A} (n : nat) (xs : list A) : list A :=
  skipn (length xs - n) xs.

End PyStr.

(** ** Matches returned by the vector index *)

Definition Metadata := Dict.t string.

Record Match : Type := mkMatch {
  m_id : string;
  m_score : Q;
  m_metadata : Metadata
}.

(** ** Reciprocal rank fusion *)

Module RRF.

(** [scores.get(doc_id, 0)] *)
Definition get0 (scores : Dict.t Q) (doc_id : string) : Q :=
  match Dict.get scores doc_id with Some s => s | None => 0%Q end.

(** The inner loop, [for rank, match in enumerate(result_list)], started at
    position [rank]. *)
Fixpoint accumulate_list (k : Z) (rank : nat) (result_list : list Match)
         (scores : Dict.t Q) : result (Dict.t Q) :=
  match result_list with
  | [] => Ok scores
  | m :: rest =>
      let d := k + Z.of_nat rank in
      if d =? 0 then Raise ZeroDivisionError
      else accumulate_list k (S rank) rest
             (Dict.set scores (m_id m)
                (get0 scores (m_id m) + 1 / inject_Z d)%Q)
  end.

(** The outer loop, [for result_list in results_lists]. *)
Fixpoint accumulate (k : Z) (results_lists : list (list Match))
         (scores : Dict.t Q) : result (Dict.t Q) :=
  match results_lists with
  | [] => Ok scores
  | l :: ls =>
      match accumulate_list k 0 l scores with
      | Ok scores' => accumulate k ls scores'
      | Raise e => Raise e
      end
  end.

(** [sorted(xs, key=key, reverse=True)]: descending and stable, elements
    of equal key keep their order. *)
Fixpoint insert_desc {A} (key : A -> Q) (x : A) (l : list A) : list A :=
  match l with
  | [] => [x]
  | y :: l' =>
      if Qle_bool (key y) (key x) then x :: y :: l'
      else y :: insert_desc key x l'
  end.

Definition sorted_desc {A} (key : A -> Q) (l : list A) : list A :=
  fold_right (insert_desc key) [] l.


(** [{m['id']: m for l in results_lists for m in l}] *)
Definition id_to_match (results_lists : list (list Match)) : Dict.t Match :=
  fold_left (fun d m => Dict.set d (m_id m) m) (concat results_lists) [].

(** [[id_to_match[doc_id] for doc_id in sorted_ids]] *)
Fixpoint materialize (d : Dict.t Match) (ids : list string)
  : result (list Match) :=
  match ids with
  | [] => Ok []
  | i :: ids' =>
      match Dict.get d i with
      | None => Raise (KeyError i)
      | Some m =>
          match materialize d ids' with
          | Ok ms => Ok (m :: ms)
          | Raise e => Raise e
          end
      end
  end.

(** [xs[:k]] for any integer [k]. *)
Definition slice_to {A} (k : Z) (xs : list A) : list A :=
  if 0 <=? k then firstn (Z.to_nat k) xs
  else firstn (length xs - Z.to_nat (- k)) xs.

(** The score table built by the two loops. *)
Definition rrf_scores (results_lists : list (list Match)) (k : Z)
  : result (Dict.t Q) :=
  accumulate k results_lists [].

Definition _reciprocal_rank_fusion (results_lists : list (list Match))
           (k : Z) : result (list Match) :=
  match rrf_scores results_lists k with
  | Raise e => Raise e
  | Ok scores =>
      let sorted_ids := sorted_desc (get0 scores) (Dict.keys scores) in
      match materialize (id_to_match results_lists) sorted_ids with
      | Raise e => Raise e
      | Ok fused => Ok (slice_to k fused)
      end
  end.

(** *** The score as the specification words it *)




(** Sum of [1 / (k + position)] over every position of [l], counted from
    [rank], whose match carries [doc_id]. *)
Fixpoint occurrences (k : Z) (rank : nat) (doc_id : string)
         (l : list Match) : Q :=
  match l with
  | [] => 0%Q
  | m :: rest =>
      ((if String.eqb (m_id m) doc_id
        then 1 / inject_Z (k + Z.of_nat rank) else 0)
       + occurrences k (S rank) doc_id rest)%Q
  end.



Definition appears (doc_id : string) (results_lists : list (list Match))
  : Prop :=
  exists l, In l results_lists /\ In doc_id (map m_id l).

End RRF.

(** ** Providers, the world and the monad of service calls *)

Definition Vector := list Q.

(** What a message or the pipeline's [content] argument may hold. *)
Inductive Content : Type :=
| Str (s : string)
| AudioBase64 (data : string) (shown : string)
    (* {"type": "audio_base64", "data": data}, with its [str()] *)
| Other (truth : bool) (shown : string).
    (* any other object, with its truth value and its [str()] *)

Record Message : Type := mkMessage {
  role : string;
  content : Content
}.

Record ChatRequest : Type := mkChatRequest {
  cr_model : string;
  cr_prompt : string;
  cr_max_tokens : Z;
  cr_temperature : Q
}.

(** The three values the memory service hands back, already rendered. *)
Record MemoryResult : Type := mkMemoryResult {
  mr_context : string;
  mr_user_profile : string;
  mr_memory_summary : string
}.

Inductive Level : Type := Warning | Error.

(** One entry per call that leaves the process, and per warning or error
    line logged.  [logger.info] and [print] lines are not recorded. *)
Inductive Event : Type :=
| EvMemory (user_id : string) (messages : list Message)
| EvChat (r : ChatRequest)
| EvEmbed (text : string)
| EvUpsert (id : string) (v : Vector) (md : Metadata)
| EvQuery (v : Vector) (top_k : Z) (filter : Metadata)
| EvAudioInit
| EvTranscribe (audio : string)
| EvSendChat (user_id : string) (messages : list Message) (type : string)
| EvNow
| EvLog (l : Level) (msg : string).

Record Stored : Type := mkStored {
  st_id : string;
  st_vector : Vector;
  st_metadata : Metadata
}.

Record World : Type := mkWorld {
  trace : list Event;
  index : list Stored
}.

(** The answers of the outside world.  The first argument of each oracle
    is the number of events recorded so far, so that two calls with the
    same request may be answered differently. *)
Record Env : Type := mkEnv {
  chat_completion : nat -> ChatRequest -> result string;
  embeddings_create : nat -> string -> result Vector;
  upsert_fault : nat -> option exn;
  query_fault : nat -> option exn;
  similarity : Vector -> Vector -> Q;
  now_isoformat : nat -> string;
  audio_init_fault : nat -> option exn;
  whisper_transcribe : nat -> string -> result string;
  send_chat : nat -> string -> list Message -> string -> result string;
  process_conversation : nat -> string -> list Message -> result MemoryResult;
  str_of_dict : Dict.t string -> string;
  str_of_exn : exn -> string
}.

Definition M (A : Type) : Type := World -> result A * World.

Definition ret {A} (a : A) : M A := fun w => (Ok a, w).

Definition raise {A} (e : exn) : M A := fun w => (Raise e, w).

Definition bind {A B} (m : M A) (f : A -> M B) : M B :=
  fun w =>
    match m w with
    | (Ok a, w') => f a w'
    | (Raise e, w') => (Raise e, w')
    end.

(** [try: m  except Exception as e: handler e] *)
Definition try_except {A} (m : M A) (handler : exn -> M A) : M A :=
  fun w =>
    match m w with
    | (Ok a, w') => (Ok a, w')
    | (Raise e, w') => handler e w'
    end.

Definition lift {A} (r : result A) : M A := fun w => (r, w).

Notation "x <- m ;; k" := (bind m (fun x => k))
  (at level 61, m at next level, right associativity).
Notation "m ;;; k" := (bind m (fun _ => k))
  (at level 61, right associativity).

Definition record (e : Event) (w : World) : World :=
  mkWorld (trace w ++ [e]) (index w).

(** A call to a provider: recorded, then answered by the oracle. *)
Definition call {A} (e : Event) (answer : nat -> result A) : M A :=
  fun w => (answer (length (trace w)), record e w).

Definition log (l : Level) (msg : string) : M unit :=
  fun w => (Ok tt, record (EvLog l msg) w).

(** ** The vector index

    Modelled from the spec: the external vector store of section 6,
    [upsert(id, vector, metadata)] and [query(vector, top_k, filter)], the
    latter returning at most [top_k] stored records that carry every
    filtered metadata value, ranked by similarity to the query vector. *)

Module Index.

(** A record passes a filter when it carries every filtered key with
    the filtered value. *)
Definition passes (filter md : Metadata) : bool :=
  forallb (fun kv =>
             match Dict.get md (fst kv) with
             | Some v => String.eqb v (snd kv)
             | None => false
             end) filter.

(** [upsert]: a record with a known id is replaced in place. *)
Fixpoint put (r : Stored) (ix : list Stored) : list Stored :=
  match ix with
  | [] => [r]
  | r' :: ix' =>
      if String.eqb (st_id r') (st_id r) then r :: ix' else r' :: put r ix'
  end.

(** The matches of a query: records passing the filter, best first. *)
Definition search (sim : Vector -> Vector -> Q) (ix : list Stored)
           (v : Vector) (top_k : Z) (filter : Metadata) : list Match :=
  let hits := List.filter (fun r => passes filter (st_metadata r)) ix in
  let scored :=
    map (fun r => mkMatch (st_id r) (sim v (st_vector r)) (st_metadata r))
        hits in
  firstn (Z.to_nat top_k) (RRF.sorted_desc m_score scored).

End Index.

(** ** services/audio_service.py *)

Module AudioService.
Import PyStr.

Definition _voice_profile_map : Dict.t string :=
  [ ("7426720361733013513", "魅力女友");
    ("7426720361733046281", "柔美女友");
    ("7426720361733210121", "傲娇霸总");
    ("7468518846874271795", "正直青年") ].

Definition gentle_keywords : list string :=
  ["soft"; "gentle"; "caring"; "tender"].
Definition charming_keywords : list string :=
  ["joy"; "playful"; "friendly"; "charming"; "sweet"].
Definition authoritative_keywords : list string :=
  ["authoritative"; "deep"; "powerful"; "boss"; "commanding"].

(** [any(word in lower for word in words)] *)
Definition any_in (words : list string) (lower : string) : bool :=
  existsb (fun word => contains word lower) words.

Definition _classify_voice_profile (emotion_analysis : string) : string :=
  if negb (truthy emotion_analysis) then "7468518846874271795"
  else
    let lower := lower emotion_analysis in
    if any_in gentle_keywords lower then "7426720361733046281"
    else if any_in charming_keywords lower then "7426720361733013513"
    else if any_in authoritative_keywords lower then "7426720361733210121"
    else "7468518846874271795".

(** [self._voice_profile_map.get(self._classify_voice_profile(e))] *)
Definition voice_profile_name (emotion_analysis : string) : option string :=
  Dict.get _voice_profile_map (_classify_voice_profile emotion_analysis).

Definition neutral_summary : string :=
  "The speaker's emotional state appears neutral with no strong emotional indicators detected.".

Definition emotion_prompt (text : string) : string :=
  (nl ++
   "                Analyze the emotional content of this transcribed speech and provide a single natural sentence summary." ++ nl ++
   "                " ++ nl ++
   "                The summary should include:" ++ nl ++
   "                - The primary emotion detected (joy, sadness, anger, fear, surprise, etc.)" ++ nl ++
   "                - Emotional intensity level (mild, moderate, strong)" ++ nl ++
   "                - Any notable speech patterns or emotional indicators" ++ nl ++
   "                - The overall emotional context" ++ nl ++
   "                " ++ nl ++
   "                Write this as a natural, conversational sentence that someone would use to describe the speaker's emotional state." ++ nl ++
   "                " ++ nl ++
   "                Transcribed Text: " ++ dquote ++ text ++ dquote ++ nl ++
   "                " ++ nl ++
   "                Emotional summary (one sentence):" ++ nl ++
   "                ")%string.

(** The dictionary [process_audio] returns; an absent key reads as
    [None], as [result.get] does. *)
Record AudioResult : Type := mkAudioResult {
  ar_error : option string;
  ar_transcription : option string;
  ar_emotion_analysis : option string;
  ar_voice_profile_name : option string
}.

Section WithEnv.
Variable env : Env.

Definition _transcribe_audio (audio_data : string) : M (option string) :=
  try_except
    (response <- call (EvTranscribe audio_data)
                      (fun n => whisper_transcribe env n audio_data);;
     ret (Some response))
    (fun _ => ret None).

Definition _analyze_emotion (text : string) : M string :=
  try_except
    (let r := mkChatRequest "qwen-max" (emotion_prompt text) 100 (3 # 10) in
     content <- call (EvChat r) (fun n => chat_completion env n r);;
     ret (strip content))
    (fun _ => ret neutral_summary).

Definition process_audio (audio_data : string) : M AudioResult :=
  try_except
    (transcription <- _transcribe_audio audio_data;;
     match transcription with
     | Some t =>
         if truthy t then
           analysis <- _analyze_emotion t;;
           let emotion_analysis :=
             if truthy analysis then analysis else neutral_summary in
           ret (mkAudioResult None (Some t) (Some emotion_analysis)
                  (voice_profile_name emotion_analysis))
         else
           ret (mkAudioResult (Some "Failed to transcribe audio")
                  None None None)
     | None =>
         ret (mkAudioResult (Some "Failed to transcribe audio")
                None None None)
     end)
    (fun e => ret (mkAudioResult (Some (str_of_exn env e)) None None None)).
End WithEnv.

End AudioService.

(** ** services/rag_service.py *)

Module RAGService.
Import PyStr.

Definition voice_profile_prompts : Dict.t string :=
  [ ("魅力女友",
     "Respond in a charming and playful girlfriend tone, using sweet expressions and light humor.");
    ("柔美女友",
     "Respond in a gentle, caring tone, softly comforting and encouraging the user.");
    ("傲娇霸总",
     "Respond in a confident, slightly teasing CEO-like tone with a hint of tsundere warmth underneath.");
    ("正直青年",
     "Respond in a straightforward, righteous young male tone, honest and spirited.") ].

(** How a content reads inside an f-string. *)
Definition show (c : Content) : string :=
  match c with
  | Str s => s
  | AudioBase64 _ shown => shown
  | Other _ shown => shown
  end.

Definition content_truthy (c : option Content) : bool :=
  match c with
  | None => false
  | Some (Str s) => truthy s
  | Some (AudioBase64 _ _) => true
  | Some (Other truth _) => truth
  end.

(** *** extract_key_info: the text part *)

Definition emotional_marker : string := "[Emotional context:".

(** The annotation block of [extract_key_info]: the pair
    [(emotional_context, text)] it leaves behind. *)
Definition split_emotional_context (text : string) : string * string :=
  if contains emotional_marker text then
    let start_idx := find text emotional_marker 0 in
    let end_idx := find text "]" start_idx in
    if negb (end_idx =? -1) then
      (strip (slice text (start_idx + 19) end_idx),
       (strip (slice_to text start_idx)
        ++ strip (slice_from text (end_idx + 1)))%string)
    else ("", text)
  else ("", text).

(** The fixed opening of the summarization prompt. *)
Definition extract_instructions : string :=
  ("Extract key information from the user message and summarize it in ONE natural sentence. "
   ++ "Include: who (people mentioned), what (main event/action), when (time references), "
   ++ "where (locations), why (purpose/intent), and emotional state. "
   ++ "Make it conversational and natural, like you're describing what the user said to someone else.")%string.

(** The f-string of [extract_key_info], from the conversation context,
    the emotional context and the text left after the annotation block. *)
Definition extract_prompt_text (conversation_context emotional_context
                                text : string) : string :=
  let context_prompt :=
    if truthy conversation_context
    then (nl ++ nl ++ "Conversation Context: " ++ conversation_context)%string
    else "" in
  let emotion_prompt :=
    if truthy emotional_context
    then (nl ++ nl ++ "Emotional Context: " ++ emotional_context)%string
    else "" in
  (extract_instructions
   ++ context_prompt ++ emotion_prompt ++ nl ++ nl
   ++ "User message: " ++ text ++ nl ++ nl
   ++ "Extracted information (one sentence):")%string.

Definition extract_prompt (text conversation_context : string) : string :=
  let '(emotional_context, text) := split_emotional_context text in
  extract_prompt_text conversation_context emotional_context text.

(** *** Prompt texts *)

(** The [User: ...] / [Assistant: ...] lines of a history. *)
Definition format_turns (msgs : list Message) : list string :=
  flat_map
    (fun msg =>
       if String.eqb (role msg) "user"
       then [("User: " ++ show (content msg))%string]
       else if String.eqb (role msg) "assistant"
            then [("Assistant: " ++ show (content msg))%string]
            else [])
    msgs.

Definition rephrase_prompt (conversation_context query : string) : string :=
  ("Rewrite the question for search while keeping its meaning and key terms intact." ++ nl ++
   "        If the conversation history is empty, DO NOT change the query." ++ nl ++
   "        Use conversation history only if necessary, and avoid extending the query with your own knowledge." ++ nl ++
   "        If no changes are needed, output the current question as is." ++ nl ++
   nl ++
   "        Conversation history:" ++ nl ++
   "        " ++ conversation_context ++ nl ++
   nl ++
   "        User Query: " ++ query ++ nl ++
   "        Rewritten Query:")%string.

Fixpoint pair_turns (msgs : list Message) : list string :=
  match msgs with
  | u :: a :: rest =>
      ("User: " ++ show (content u) ++ nl
       ++ "Assistant: " ++ show (content a))%string :: pair_turns rest
  | _ => []
  end.

Definition _build_conversation_context (chat_history : list Message)
  : string :=
  match chat_history with
  | [] => ""
  | _ =>
      let recent_messages :=
        if (6 <? length chat_history)%nat then last_n 6 chat_history
        else chat_history in
      join nl (pair_turns recent_messages)
  end.

Definition _build_enhanced_prompt_with_memory
           (memory_context memory_summary user_profile relevant_context
            semantic_context : string) (chat_history : list Message)
           (user_message voice_profile_prompt : string) : string :=
  let formatted_history :=
    match chat_history with
    | [] => ""
    | _ => join nl (format_turns (last_n 4 chat_history))
    end in
  ("You are a helpful AI assistant with access to conversation context, memory, and history." ++ nl ++
   nl ++
   "            Memory Context:" ++ nl ++
   "            " ++ memory_context ++ nl ++
   nl ++
   "            Memory Summary:" ++ nl ++
   "            " ++ memory_summary ++ nl ++
   nl ++
   "            User Profile:" ++ nl ++
   "            " ++ user_profile ++ nl ++
   nl ++
   "            " ++ relevant_context ++ nl ++
   nl ++
   "            " ++ semantic_context ++ nl ++
   nl ++
   "            Recent Conversation:" ++ nl ++
   "            " ++ formatted_history ++ nl ++
   nl ++
   "            Current User Message:" ++ nl ++
   "            " ++ user_message ++ nl ++
   nl ++
   "            Instructions:" ++ nl ++
   "            1. Use the relevant context and memory to provide personalized responses" ++ nl ++
   "            2. Reference semantic context when appropriate for better understanding" ++ nl ++
   "            3. Maintain conversation continuity and flow" ++ nl ++
   "            4. Be helpful, empathetic, and engaging" ++ nl ++
   "            5. If the user asks about something you don't know, say so rather than guessing" ++ nl ++
   nl ++
   "            " ++ voice_profile_prompt ++ nl ++
   nl ++
   "            Your response:")%string.

Definition multiquery_prompt (query : string) (n : Z) : string :=
  ("Rephrase the following question in " ++ str_of_int n
   ++ " different ways, keeping the meaning the same." ++ nl
   ++ "Question: " ++ query ++ nl
   ++ "Rephrasings (one per line):")%string.

(** [[line.strip("- ") for line in lines if line.strip()]] for the reply
    [content] of the model. *)
Definition paraphrases_of_reply (content : string) : list string :=
  let lines := split_on (ascii_of_nat 10) (strip content) in
  map (strip_chars "- ")
      (List.filter (fun line => truthy (strip line)) lines).

(** [queries = [query] + [...]] and [queries[:n]]. *)
Definition multiqueries_of_reply (query : string) (n : Z) (content : string)
  : list string :=
  let queries := query :: paraphrases_of_reply content in
  RRF.slice_to n queries.

Definition classify_prompt (text : string) : string :=
  ("You are an emotion classifier that maps user text to one of four profiles: "
   ++ "魅力女友 (charming girlfriend, playful, sweet), "
   ++ "柔美女友 (gentle girlfriend, caring, soft), "
   ++ "傲娇霸总 (tsundere CEO, confident, teasing), "
   ++ "正直青年 (upright young man, honest, spirited)." ++ nl ++ nl
   ++ "Read the USER_TEXT delimited by triple backticks and output ONLY the profile name that best fits." ++ nl
   ++ "If unsure choose 正直青年." ++ nl ++ nl
   ++ "```" ++ nl ++ text ++ nl ++ "```")%string.

(** *** Reading matches *)

Fixpoint with_timestamps (ms : list Match)
  : result (list (string * Match)) :=
  match ms with
  | [] => Ok []
  | m :: rest =>
      match Dict.get (m_metadata m) "timestamp" with
      | None => Raise (KeyError "timestamp")
      | Some t =>
          match with_timestamps rest with
          | Ok l => Ok ((t, m) :: l)
          | Raise e => Raise e
          end
      end
  end.

Fixpoint insert_by_timestamp (x : string * Match)
         (l : list (string * Match)) : list (string * Match) :=
  match l with
  | [] => [x]
  | y :: l' =>
      if String.leb (fst y) (fst x) then x :: y :: l'
      else y :: insert_by_timestamp x l'
  end.

(** [sorted(matches, key=lambda x: x['metadata']['timestamp'],
    reverse=True)] *)
Definition sorted_by_timestamp (ms : list Match) : result (list Match) :=
  match with_timestamps ms with
  | Ok l => Ok (map snd (fold_right insert_by_timestamp [] l))
  | Raise e => Raise e
  end.

Definition legacy_fields : list string :=
  ["person"; "when"; "where"; "event"; "emotions"; "timestamp"].

(** One entry of [retrieve_extracted_info]'s result.  The legacy
    [emotions] field is kept as its JSON text. *)
Definition info_of_match (m : Match) : Dict.t string :=
  let metadata := m_metadata m in
  match Dict.get metadata "extracted_info" with
  | Some info =>
      [ ("extracted_info", info);
        ("timestamp",
         match Dict.get metadata "timestamp" with Some t => t | None => "" end) ]
  | None =>
      List.filter
        (fun kv => existsb (String.eqb (fst kv)) legacy_fields) metadata
  end.

Definition bullets (header : string) (parts : list string) : string :=
  (header ++ nl ++ join nl (map (fun part => "• " ++ part) parts))%string.

(** The [extracted_info] texts of the highly relevant matches. *)
Definition semantic_parts (ms : list Match) : list string :=
  flat_map
    (fun m =>
       if negb (Qle_bool (m_score m) (7 # 10)) then
         match Dict.get (m_metadata m) "extracted_info" with
         | Some info => [info]
         | None => []
         end
       else [])
    ms.

(** *** retrieve_context: the parent swap *)

Fixpoint count_parents (fused : list Match)
         (parent_counts : Dict.t Z) (parent_texts : Dict.t (option string))
  : Dict.t Z * Dict.t (option string) :=
  match fused with
  | [] => (parent_counts, parent_texts)
  | m :: rest =>
      match Dict.get (m_metadata m) "parent_id" with
      | Some parent_id =>
          if truthy parent_id then
            count_parents rest
              (Dict.set parent_counts parent_id
                 (match Dict.get parent_counts parent_id with
                  | Some c => c | None => 0 end + 1))
              (Dict.set parent_texts parent_id
                 (Dict.get (m_metadata m) "parent_text"))
          else count_parents rest parent_counts parent_texts
      | None => count_parents rest parent_counts parent_texts
      end
  end.

Fixpoint first_frequent_parent (top_k : Z) (counts : list (string * Z))
         (parent_texts : Dict.t (option string)) : option (option string) :=
  match counts with
  | [] => None
  | (parent_id, count) :: rest =>
      if (top_k / 2 <=? count) && Dict.mem parent_texts parent_id
      then Dict.get parent_texts parent_id
      else first_frequent_parent top_k rest parent_texts
  end.

Fixpoint texts_of (fused : list Match) : result (list (option string)) :=
  match fused with
  | [] => Ok []
  | m :: rest =>
      match Dict.get (m_metadata m) "text" with
      | None => Raise (KeyError "text")
      | Some t =>
          match texts_of rest with
          | Ok l => Ok (Some t :: l)
          | Raise e => Raise e
          end
      end
  end.

(** The metadata written with an extracted fact; both branches of
    [add_extracted_info_to_vector_db] build this dictionary. *)
Definition extracted_metadata (user_id timestamp info_text : string)
  : Metadata :=
  [ ("extracted_info", info_text);
    ("text", info_text);
    ("type", "extracted_info");
    ("user_id", user_id);
    ("timestamp", timestamp) ].

(** The filter of [retrieve_context]:
    [{"user_id": user_id}] updated with the caller's [filters]. *)
Definition pinecone_filter (user_id : string)
           (filters : option Metadata) : Metadata :=
  match filters with
  | None => [("user_id", user_id)]
  | Some [] => [("user_id", user_id)]
  | Some f => Dict.update [("user_id", user_id)] f
  end.

Section WithEnv.
Variable env : Env.

(** [client.chat.completions.create(...)] and the reply's text. *)
Definition chat (model prompt : string) (max_tokens : Z) (temperature : Q)
  : M string :=
  let r := mkChatRequest model prompt max_tokens temperature in
  call (EvChat r) (fun n => chat_completion env n r).

Definition now : M string :=
  call EvNow (fun n => Ok (now_isoformat env n)).

Definition index_upsert (id : string) (v : Vector) (md : Metadata)
  : M unit :=
  fun w =>
    match upsert_fault env (length (trace w)) with
    | Some e => (Raise e, record (EvUpsert id v md) w)
    | None =>
        (Ok tt, mkWorld (trace w ++ [EvUpsert id v md])
                        (Index.put (mkStored id v md) (index w)))
    end.

(** [self.index.query(...)['matches']] *)
Definition index_query (v : Vector) (top_k : Z) (filter : Metadata)
  : M (list Match) :=
  fun w =>
    match query_fault env (length (trace w)) with
    | Some e => (Raise e, record (EvQuery v top_k filter) w)
    | None =>
        (Ok (Index.search (similarity env) (index w) v top_k filter),
         record (EvQuery v top_k filter) w)
    end.

Definition extract_key_info (text conversation_context : string)
  : M (Dict.t string) :=
  content <- chat "gpt-4o" (extract_prompt text conversation_context)
                  200 0;;
  ret [("extracted_info", strip content)].

Definition rephrase_query_with_context (query : string)
           (conversation_history : list Message) : M string :=
  match conversation_history with
  | [] => ret query
  | _ =>
      let conversation_context :=
        join nl (format_turns (last_n 4 conversation_history)) in
      let prompt := rephrase_prompt conversation_context query in
      try_except
        (content <- chat "gpt-4o" prompt 100 0;;
         ret (strip content))
        (fun e =>
           log Error ("Error rephrasing query: " ++ str_of_exn env e)%string;;;
           ret query)
  end.

Definition get_embedding (text : string) : M Vector :=
  call (EvEmbed text) (fun n => embeddings_create env n text).

Definition retrieve_extracted_info (user_id : string) (top_k : Z)
  : M (list (Dict.t string)) :=
  try_except
    (let query_text := ("user " ++ user_id ++ " extracted info")%string in
     embedding <- get_embedding query_text;;
     matches <- index_query embedding top_k
                  [("user_id", user_id); ("type", "extracted_info")];;
     match matches with
     | [] => ret []
     | _ =>
         sorted_matches <- lift (sorted_by_timestamp matches);;
         ret (map info_of_match sorted_matches)
     end)
    (fun e =>
       log Error ("Error retrieving extracted info: " ++ str_of_exn env e)%string;;;
       ret []).

Definition _build_relevant_context (user_id current_message : string)
  : M string :=
  try_except
    (extracted_infos <- retrieve_extracted_info user_id 5;;
     match extracted_infos with
     | [] => ret "No previous context available."
     | _ =>
         let context_parts :=
           flat_map
             (fun info =>
                match Dict.get info "extracted_info" with
                | Some v => if truthy v then [v] else []
                | None => []
                end)
             extracted_infos in
         match context_parts with
         | [] => ret "Relevant Context: Limited information available."
         | _ => ret (bullets "Relevant Context:" context_parts)
         end
     end)
    (fun e =>
       log Error ("Error building relevant context: " ++ str_of_exn env e)%string;;;
       ret "Relevant Context: Error retrieving context information.").

Definition _retrieve_semantic_context (user_id current_message : string)
  : M string :=
  try_except
    (query_embedding <- get_embedding current_message;;
     matches <- index_query query_embedding 3
                  [("user_id", user_id); ("type", "extracted_info")];;
     match semantic_parts matches with
     | [] =>
         ret "Semantic Context: No specific context found for this message."
     | parts => ret (bullets "Semantic Context:" parts)
     end)
    (fun e =>
       log Error ("Error retrieving semantic context: " ++ str_of_exn env e)%string;;;
       ret "Semantic Context: Error retrieving context.").

(** The [try] block of [add_extracted_info_to_vector_db]. *)
Definition upsert_extracted (user_id timestamp info_text : string) : M bool :=
  let metadata := extracted_metadata user_id timestamp info_text in
  try_except
    (embedding <- get_embedding info_text;;
     let vector_id := (user_id ++ "_" ++ timestamp ++ "_extracted")%string in
     index_upsert vector_id embedding metadata;;;
     ret true)
    (fun e =>
       log Error ("Error upserting extracted info: " ++ str_of_exn env e)%string;;;
       ret false).

Definition add_extracted_info_to_vector_db (user_id : string)
           (extracted_info : Dict.t string) (timestamp : option string)
  : M bool :=
  timestamp <- match timestamp with
               | None => now
               | Some t => ret t
               end;;
  info_text <- match Dict.get extracted_info "extracted_info" with
               | Some info_text => ret info_text
               | None =>
                   log Warning
                     ("Received old format extracted_info: "
                      ++ str_of_dict env extracted_info)%string;;;
                   ret (str_of_dict env extracted_info)
               end;;
  upsert_extracted user_id timestamp info_text.

Definition add_voice_profile_to_vector_db (user_id : string)
           (voice_profile_name : option string) (timestamp : option string)
  : M bool :=
  match voice_profile_name with
  | None => ret false
  | Some name =>
      if negb (truthy name) then ret false
      else
        timestamp <- match timestamp with
                     | None => now
                     | Some t => ret t
                     end;;
        let text := ("voice_profile::" ++ name)%string in
        let metadata :=
          [ ("voice_profile", name);
            ("text", text);
            ("type", "voice_profile");
            ("user_id", user_id);
            ("timestamp", timestamp) ] in
        try_except
          (embedding <- get_embedding text;;
           let vector_id := (user_id ++ "_voice_profile")%string in
           index_upsert vector_id embedding metadata;;;
           ret true)
          (fun e =>
             log Error ("Error upserting voice profile: " ++ str_of_exn env e)%string;;;
             ret false)
  end.

Definition _generate_multiqueries (query : string) (n : Z)
  : M (list string) :=
  content <- chat "gpt-4o" (multiquery_prompt query n) 256 (7 # 10);;
  ret (multiqueries_of_reply query n content).

(** The loop [for q in queries] of [retrieve_context]. *)
Fixpoint search_each (queries : list string) (top_k : Z)
         (filter : Metadata) : M (list (list Match)) :=
  match queries with
  | [] => ret []
  | q :: rest =>
      embedding <- get_embedding q;;
      matches <- index_query embedding top_k filter;;
      results_lists <- search_each rest top_k filter;;
      ret (matches :: results_lists)
  end.

Definition retrieve_context (query user_id : string) (top_k : Z)
           (filters : option Metadata) (multiquery_n : Z)
  : M (list (option string)) :=
  queries <- _generate_multiqueries query multiquery_n;;
  results_lists <- search_each queries top_k
                     (pinecone_filter user_id filters);;
  fused <- lift (RRF._reciprocal_rank_fusion results_lists top_k);;
  let '(parent_counts, parent_texts) := count_parents fused [] [] in
  match first_frequent_parent top_k parent_counts parent_texts with
  | Some parent_text => ret [parent_text]
  | None => lift (texts_of fused)
  end.

Definition classify_voice_profile_from_text (text : string) : M string :=
  try_except
    (content <- chat "gpt-4o" (classify_prompt text) 5 0;;
     match first_word (strip content) with
     | None => raise IndexError
     | Some profile =>
         if Dict.mem voice_profile_prompts profile then ret profile
         else ret "正直青年"
     end)
    (fun e =>
       log Error ("Voice profile classification failed: " ++ str_of_exn env e)%string;;;
       ret "正直青年").

(** *** rag_pipeline *)

(** Step 1: the memory service, with empty defaults on failure. *)
Definition memory_step (user_id : string) (memory_messages : list Message)
  : M MemoryResult :=
  try_except
    (call (EvMemory user_id memory_messages)
          (fun n => process_conversation env n user_id memory_messages))
    (fun e =>
       log Error ("Memory service processing failed: " ++ str_of_exn env e)%string;;;
       ret (mkMemoryResult "" "{}" "")).

Definition audio_data_of (content : option Content) : string :=
  match content with
  | Some (AudioBase64 data _) => data
  | Some (Str s) => s
  | Some (Other _ shown) => shown
  | None => "None"
  end.

Definition style_of (voice_profile_name : option string) : string :=
  match voice_profile_name with
  | Some name =>
      if truthy name then
        match Dict.get voice_profile_prompts name with
        | Some p => p
        | None => ""
        end
      else ""
  | None => ""
  end.

(** [if transcription: ... else: ...] of the audio branch. *)
Definition audio_message (transcription emotion_analysis : option string)
  : string :=
  match transcription with
  | Some t =>
      if truthy t then
        match emotion_analysis with
        | Some e =>
            if truthy e
            then (t ++ " [Emotional context: " ++ e ++ "]")%string
            else t
        | None => t
        end
      else "[Audio transcription failed]"
  | None => "[Audio transcription failed]"
  end.

(** The modality branch: the message to go on with, the style
    directive and the voice profile name.  The audio service can only
    fail while it is being set up, before any of the three is
    assigned. *)
Definition modality_step (user_id user_message input_type : string)
           (content : option Content)
  : M (string * string * option string) :=
  if String.eqb input_type "audio" && content_truthy content then
    try_except
      (call EvAudioInit
            (fun n => match audio_init_fault env n with
                      | Some e => Raise e
                      | None => Ok tt
                      end);;;
       result <- AudioService.process_audio env (audio_data_of content);;
       let transcription := AudioService.ar_transcription result in
       let emotion_analysis := AudioService.ar_emotion_analysis result in
       let voice_profile_name := AudioService.ar_voice_profile_name result in
       add_voice_profile_to_vector_db user_id voice_profile_name None;;;
       ret (audio_message transcription emotion_analysis,
            style_of voice_profile_name, voice_profile_name))
      (fun e =>
         log Error ("Error processing audio in RAG pipeline: " ++ str_of_exn env e)%string;;;
         ret ("[Audio processing failed]", "", None))
  else if String.eqb input_type "text" then
    voice_profile_name <- classify_voice_profile_from_text user_message;;
    add_voice_profile_to_vector_db user_id (Some voice_profile_name) None;;;
    ret (user_message,
         match Dict.get voice_profile_prompts voice_profile_name with
         | Some p => p
         | None => ""
         end,
         Some voice_profile_name)
  else ret (user_message, "", None).

Definition rag_pipeline (user_id user_message : string)
           (chat_history : list Message) (input_type : string)
           (content : option Content) : M (string * option string) :=
  let memory_messages := chat_history ++ [mkMessage "user" (Str user_message)] in
  memory_result <- memory_step user_id memory_messages;;
  let memory_context := mr_context memory_result in
  let user_profile := mr_user_profile memory_result in
  let memory_summary := mr_memory_summary memory_result in
  modality <- modality_step user_id user_message input_type content;;
  let '(user_message, voice_profile_prompt, voice_profile_name) := modality in
  rephrased_query <- rephrase_query_with_context user_message chat_history;;
  let conversation_context := _build_conversation_context chat_history in
  extracted <- extract_key_info user_message conversation_context;;
  add_extracted_info_to_vector_db user_id extracted None;;;
  relevant_context <- _build_relevant_context user_id rephrased_query;;
  semantic_context <- _retrieve_semantic_context user_id rephrased_query;;
  let prompt :=
    _build_enhanced_prompt_with_memory
      memory_context memory_summary user_profile
      relevant_context semantic_context chat_history user_message
      voice_profile_prompt in
  if String.eqb input_type "text" || String.eqb input_type "audio" then
    let messages := [mkMessage "user" (Str prompt)] in
    llm_response <- call (EvSendChat user_id messages "text")
                         (fun n => send_chat env n user_id messages "text");;
    try_except
      (let full_conversation :=
         memory_messages ++ [mkMessage "assistant" (Str llm_response)] in
       call (EvMemory user_id full_conversation)
            (fun n => process_conversation env n user_id full_conversation);;;
       ret tt)
      (fun e =>
         log Error ("Failed to store conversation in memory: " ++ str_of_exn env e)%string);;;
    ret (llm_response, voice_profile_name)
  else
    let content_list :=
      chat_history ++
      match content with
      | Some c =>
          if startswith "image" input_type && content_truthy content
          then [mkMessage "user" c]
          else if truthy user_message
               then [mkMessage "user" (Str user_message)]
               else []
      | None =>
          if truthy user_message
          then [mkMessage "user" (Str user_message)]
          else []
      end in
    llm_response <- call (EvSendChat user_id content_list input_type)
                         (fun n => send_chat env n user_id content_list input_type);;
    ret (llm_response, voice_profile_name).

End WithEnv.

End RAGService.

(** ** Vocabulary of the statements *)

(** [m] returns a value from every world. *)
Definition never_raises {A} (m : M A) : Prop :=
  forall w, exists a w', m w = (Ok a, w').

(** [m] only adds events satisfying [P] to the trace. *)
Definition emits (P : Event -> Prop) {A} (m : M A) : Prop :=
  forall w, exists evs, trace (snd (m w)) = trace w ++ evs /\ Forall P evs.

(** Whatever [m] returns satisfies [Q]. *)
Definition yields {A} (Q : A -> Prop) (m : M A) : Prop :=
  forall w, match fst (m w) with Ok a => Q a | Raise _ => True end.

(** Events of voice-profile classification: the classifier's completion
    call, the speech pipeline, and the write of a voice-profile record. *)
Definition voice_event (e : Event) : bool :=
  match e with
  | EvChat r => PyStr.startswith "You are an emotion classifier" (cr_prompt r)
  | EvAudioInit => true
  | EvTranscribe _ => true
  | EvUpsert _ _ md =>
      match Dict.get md "type" with
      | Some t => String.eqb t "voice_profile"
      | None => false
      end
  | _ => false
  end.

(** The embedding requests of a trace, in order. *)
Definition embedded_texts (evs : list Event) : list string :=
  flat_map (fun e => match e with EvEmbed t => [t] | _ => [] end) evs.

(** The filters of the index queries of a trace, in order. *)
Definition query_filters (evs : list Event) : list Metadata :=
  flat_map (fun e => match e with EvQuery _ _ f => [f] | _ => [] end) evs.

(** The sizes asked of the index by the queries of a trace, in order. *)
Definition query_sizes (evs : list Event) : list Z :=
  flat_map (fun e => match e with EvQuery _ k _ => [k] | _ => [] end) evs.

(** The completion requests of a trace, in order. *)
Definition chat_requests (evs : list Event) : list ChatRequest :=
  flat_map (fun e => match e with EvChat r => [r] | _ => [] end) evs.

(** The calls to the memory service of a trace, in order. *)
Definition memory_calls (evs : list Event) : list (string * list Message) :=
  flat_map (fun e => match e with EvMemory u msgs => [(u, msgs)] | _ => [] end)
           evs.

Definition memory_event (e : Event) : bool :=
  match e with EvMemory _ _ => true | _ => false end.

(** [m] calls the memory service as [Q] tells of what [m] returns. *)
Definition memory_traffic {A}
           (Q : result A -> list (string * list Message) -> Prop)
           (m : M A) : Prop :=
  forall w, exists evs,
    trace (snd (m w)) = trace w ++ evs /\ Q (fst (m w)) (memory_calls evs).

(** ** Sample providers *)

Module Sample.

(** Providers that always answer: the completion model answers through
    [reply], an embedding is the length of the text, every stored vector
    is equally similar, and the clock stands still. *)
Definition env (reply : ChatRequest -> result string) : Env :=
  mkEnv
    (fun _ r => reply r)
    (fun _ text => Ok [inject_Z (Z.of_nat (String.length text))])
    (fun _ => None)
    (fun _ => None)
    (fun _ _ => 1%Q)
    (fun _ => "2025-01-01T00:00:00")
    (fun _ => None)
    (fun _ _ => Ok "hello")
    (fun _ _ _ _ => Ok "reply")
    (fun _ _ _ => Ok (mkMemoryResult "" "{}" ""))
    (fun _ => "{}")
    (fun _ => "error").

(** A completion model that rewrites every query to one fixed question
    and answers every other request with one fixed sentence. *)
Definition rewriting_model (r : ChatRequest) : result string :=
  if PyStr.startswith "Rewrite the question" (cr_prompt r)
  then Ok "Where does my sister live?"
  else Ok "The user asks about it.".

Definition empty_world : World := mkWorld [] [].

(** The same providers with the embedding model and the vector index out
    of service. *)
Definition env_store_down (reply : ChatRequest -> result string) : Env :=
  mkEnv
    (fun _ r => reply r)
    (fun _ _ => Raise (ProviderError "embedding service unavailable"))
    (fun _ => Some (ProviderError "index unavailable"))
    (fun _ => Some (ProviderError "index unavailable"))
    (fun _ _ => 1%Q)
    (fun _ => "2025-01-01T00:00:00")
    (fun _ => None)
    (fun _ _ => Ok "hello")
    (fun _ _ _ _ => Ok "reply")
    (fun _ _ _ => Ok (mkMemoryResult "" "{}" ""))
    (fun _ => "{}")
    (fun _ => "error").

(** An index that holds one fact written for the user "bob". *)
Definition bob_world : World :=
  mkWorld []
    [ mkStored "bob_2025-01-01T00:00:00_extracted" [1%Q]
        (RAGService.extracted_metadata "bob" "2025-01-01T00:00:00"
           "Bob plans a surprise party on Friday.") ].

(** A two-turn history. *)
Definition sister_history : list Message :=
  [ mkMessage "user" (Str "My sister moved last month.");
    mkMessage "assistant" (Str "That sounds like a big change.") ].

(** A completion model that answers every request with one line. *)
Definition terse_model (r : ChatRequest) : result string :=
  Ok "Where is my sister?".

End Sample.

(** ** services/memory_service.py *)

Module MemoryService.

Record UserProfile : Type := mkUserProfile {
  name : option string;
  age : option Z;
  profession : option string;
  hobbies : list string;
  preferences : Dict.t string;
  personality_traits : list string;
  conversation_style : option string;
  last_interaction : option string;
  total_interactions : Z
}.

(** [UserProfile()] *)
Definition new_profile : UserProfile :=
  mkUserProfile None None None [] [] [] None None 0.

(** The two dictionaries of the service. *)
Record State : Type := mkState {
  user_profiles : Dict.t UserProfile;
  conversation_histories : Dict.t (list Message)
}.

(** [MemoryService()] *)
Definition init : State := mkState [] [].

(** [del d[k]] *)
Fixpoint del {V} (d : Dict.t V) (k : string) : Dict.t V :=
  match d with
  | [] => []
  | (k', v) :: d' => if String.eqb k' k then d' else (k', v) :: del d' k
  end.

(** The lines [role: content] of the messages whose content is a string,
    the last five of them joined by newlines. *)
Definition context_parts (messages : list Message) : list string :=
  flat_map
    (fun msg =>
       match content msg with
       | Str s => [(role msg ++ ": " ++ s)%string]
       | _ => []
       end)
    messages.

Definition _build_context_from_messages (messages : list Message) : string :=
  PyStr.join PyStr.nl (PyStr.last_n 5 (context_parts messages)).

Definition summary_of (profile : UserProfile) : string :=
  ("User has " ++ PyStr.str_of_int (total_interactions profile)
   ++ " total interactions")%string.

Record Processed : Type := mkProcessed {
  context : string;
  user_profile : UserProfile;
  memory_summary : string
}.

(** [process_conversation], with the reading of the clock passed in as
    [now].  Nothing in its [try] block can raise on a list of messages,
    so the [except] branch is not modelled. *)
Definition process_conversation (st : State) (now user_id : string)
           (messages : list Message) : Processed * State :=
  let old_history :=
    match Dict.get (conversation_histories st) user_id with
    | Some h => h
    | None => []
    end in
  let history := old_history ++ messages in
  let histories := Dict.set (conversation_histories st) user_id history in
  let old_profile :=
    match Dict.get (user_profiles st) user_id with
    | Some p => p
    | None => new_profile
    end in
  let profile :=
    mkUserProfile (name old_profile) (age old_profile)
                  (profession old_profile) (hobbies old_profile)
                  (preferences old_profile) (personality_traits old_profile)
                  (conversation_style old_profile) (Some now)
                  (total_interactions old_profile + 1) in
  let profiles := Dict.set (user_profiles st) user_id profile in
  let recent_messages := PyStr.last_n 10 history in
  (mkProcessed (_build_context_from_messages recent_messages) profile
               (summary_of profile),
   mkState profiles histories).

Definition get_user_profile (st : State) (user_id : string)
  : option UserProfile :=
  Dict.get (user_profiles st) user_id.

Definition get_user_memory_summary (st : State) (user_id : string) : string :=
  match Dict.get (user_profiles st) user_id with
  | Some profile => summary_of profile
  | None => ""
  end.

Definition clear_user_memory (st : State) (user_id : string) : State :=
  mkState
    (if Dict.mem (user_profiles st) user_id
     then del (user_profiles st) user_id else user_profiles st)
    (if Dict.mem (conversation_histories st) user_id
     then del (conversation_histories st) user_id
     else conversation_histories st).

(** What the service holds for a user: the stored messages and the
    number of interactions, nothing and zero for an unknown user. *)
Definition history_of (st : State) (user_id : string) : list Message :=
  match Dict.get (conversation_histories st) user_id with
  | Some h => h
  | None => []
  end.

Definition interactions_of (st : State) (user_id : string) : Z :=
  match Dict.get (user_profiles st) user_id with
  | Some p => total_interactions p
  | None => 0
  end.

(** A call of [process_conversation]: the clock, the user, the messages. *)
Definition Call : Type := string * string * list Message.

(** The service after a sequence of calls. *)
Definition run (st : State) (calls : list Call) : State :=
  fold_left
    (fun st c => snd (process_conversation st (fst (fst c)) (snd (fst c)) (snd c)))
    calls st.

(** The calls made for one user, and the messages they handed over. *)
Definition calls_of (user_id : string) (calls : list Call) : list Call :=
  List.filter (fun c => String.eqb (snd (fst c)) user_id) calls.

Definition messages_of (user_id : string) (calls : list Call) : list Message :=
  flat_map snd (calls_of user_id calls).

End MemoryService.

(** ** utils/chat_utils.py *)

Module ChatUtils.

(** One item of a multimodal content list; an absent key is [None]. *)
Inductive Part : Type :=
| TextPart (text : option string)
    (* {"type": "text", "text": text} *)
| ImageUrlPart (url : option string)
    (* {"type": "image_url", "image_url": {"url": url}} *)
| AudioUrlPart (url : option string)
    (* {"type": "audio_url", "audio_url": {"url": url}} *)
| OtherPart.
    (* an item of any other type *)

(** The content of a message of the request. *)
Inductive Body : Type :=
| BodyStr (s : string)
| BodyParts (parts : list Part)
| BodyDict (kind data : option string) (shown : string)
    (* a dict with its ["type"], its ["data"] and its [str()] *)
| BodyOther (shown : string).
    (* any other object, with its [str()] *)

(** The value [None]. *)
Definition BodyNone : Body := BodyOther "None".

(** A message of the request; an absent key is [None]. *)
Record RawMessage : Type := mkRaw {
  raw_role : option string;
  raw_content : option Body
}.

(** {"type": ..., "data": ...} *)
Record Media : Type := mkMedia {
  media_type : string;
  media_data : string
}.

Record Parsed : Type := mkParsed {
  last_user_message : option string;
  history : list RawMessage;
  input_type : string;
  image_content : option Media;
  audio_content : option Media
}.

(** [d.get(key, "")] *)
Definition get_or_empty (o : option string) : string :=
  match o with Some s => s | None => "" end.

(** [msg.get("content")] *)
Definition get_content (msg : RawMessage) : Body :=
  match raw_content msg with Some b => b | None => BodyNone end.

(** [s.split(sep, 1)] *)
Fixpoint split_once (sep : ascii) (s : string) : list string :=
  match s with
  | EmptyString => [EmptyString]
  | String c s' =>
      if Ascii.eqb c sep then [EmptyString; s']
      else match split_once sep s' with
           | [] => [String c EmptyString]
           | h :: t => String c h :: t
           end
  end.

(** [url.split(",", 1)[1] if "," in url else url] *)
Definition url_data (url : string) : string :=
  if PyStr.contains "," url then nth 1 (split_once "," url) url else url.

(** [url.startswith("https://") and ("s3.amazonaws.com" in url or
    "amazonaws.com" in url)] *)
Definition is_s3_url (url : string) : bool :=
  PyStr.startswith "https://" url
  && (PyStr.contains "s3.amazonaws.com" url
      || PyStr.contains "amazonaws.com" url).

(** One turn of the loop over the items of a user message. *)
Definition parse_part (acc : Parsed) (part : Part) : Parsed :=
  match part with
  | TextPart text =>
      mkParsed (Some (get_or_empty text)) (history acc) (input_type acc)
               (image_content acc) (audio_content acc)
  | ImageUrlPart u =>
      let url := get_or_empty u in
      if PyStr.startswith "data:image" url then
        mkParsed (last_user_message acc) (history acc) "image"
                 (Some (mkMedia "image_base64" (url_data url)))
                 (audio_content acc)
      else if is_s3_url url then
        mkParsed (last_user_message acc) (history acc) "image"
                 (Some (mkMedia "image_url" url)) (audio_content acc)
      else acc
  | AudioUrlPart u =>
      let url := get_or_empty u in
      if PyStr.startswith "data:audio" url then
        mkParsed (last_user_message acc) (history acc) "audio"
                 (image_content acc)
                 (Some (mkMedia "audio_base64" (url_data url)))
      else if is_s3_url url then
        mkParsed (last_user_message acc) (history acc) "audio"
                 (image_content acc) (Some (mkMedia "audio_url" url))
      else acc
  | OtherPart => acc
  end.

(** One turn of the loop over the messages. *)
Definition role_is (name : string) (msg : RawMessage) : bool :=
  match raw_role msg with
  | Some r => String.eqb r name
  | None => false
  end.

Definition parse_message (acc : Parsed) (msg : RawMessage) : Parsed :=
  if role_is "assistant" msg then
    mkParsed (last_user_message acc)
             (history acc ++ [mkRaw (Some "assistant") (Some (get_content msg))])
             (input_type acc) (image_content acc) (audio_content acc)
  else if negb (role_is "user" msg) then acc
  else
    match get_content msg with
    | BodyParts parts => fold_left parse_part parts acc
    | BodyStr s =>
        mkParsed (Some s) (history acc) (input_type acc)
                 (image_content acc) (audio_content acc)
    | BodyDict _ _ shown | BodyOther shown =>
        mkParsed (Some shown) (history acc) (input_type acc)
                 (image_content acc) (audio_content acc)
    end.

Definition parse_messages (messages : list RawMessage) : Parsed :=
  fold_left parse_message messages (mkParsed None [] "text" None None).

(** The [usage] block of [build_openai_response], from [len(str(messages))]
    and [len(reply)]. *)
Record Usage : Type := mkUsage {
  prompt_tokens : Z;
  completion_tokens : Z;
  total_tokens : Z
}.

Definition usage (len_messages len_reply : Z) : Usage :=
  mkUsage (len_messages / 4) (len_reply / 4)
          ((len_messages + len_reply) / 4).

(** [s.replace(old, new)] for one-character [old] and [new]. *)
Fixpoint replace_char (old new : ascii) (s : string) : string :=
  match s with
  | EmptyString => EmptyString
  | String c s' =>
      String (if Ascii.eqb c old then new else c) (replace_char old new s')
  end.

Definition lf : ascii := ascii_of_nat 10.
Definition cr : ascii := ascii_of_nat 13.

(** The [X-Transcription] header of [audio_response_from_base64]. *)
Definition clean_trans (transcription : string) : string :=
  replace_char cr " " (replace_char lf " " (PyStr.slice_to transcription 200)).

(** The message is not a user message that carries an image or audio
    item. *)
Definition media_free_part (part : Part) : bool :=
  match part with
  | ImageUrlPart _ | AudioUrlPart _ => false
  | _ => true
  end.

Definition media_free (msg : RawMessage) : bool :=
  match get_content msg with
  | BodyParts parts =>
      negb (role_is "user" msg) || forallb media_free_part parts
  | _ => true
  end.

Definition is_assistant (msg : RawMessage) : bool := role_is "assistant" msg.

(** The entry appended to [history] for an assistant message. *)
Definition history_entry (msg : RawMessage) : RawMessage :=
  mkRaw (Some "assistant") (Some (get_content msg)).

(** The media found are tagged by their kind, and [input_type] names a
    kind that was found. *)
Definition tagged (tags : list string) (o : option Media) : bool :=
  match o with
  | None => true
  | Some m => existsb (String.eqb (media_type m)) tags
  end.

Definition present {A} (o : option A) : bool :=
  match o with Some _ => true | None => false end.

Definition consistent (p : Parsed) : bool :=
  tagged ["image_base64"; "image_url"] (image_content p)
  && tagged ["audio_base64"; "audio_url"] (audio_content p)
  && (if String.eqb (input_type p) "text"
      then negb (present (image_content p))
           && negb (present (audio_content p))
      else if String.eqb (input_type p) "image"
      then present (image_content p)
      else if String.eqb (input_type p) "audio"
      then present (audio_content p)
      else false).

End ChatUtils.

(** ** services/media_processing_service.py *)

Module MediaProcessingService.
Import ChatUtils.

Definition format_image_message (base64_str prompt : string) : list Part :=
  [ImageUrlPart (Some ("data:image/jpeg;base64," ++ base64_str)%string);
   TextPart (Some prompt)].

Definition format_audio_message (base64_str prompt : string) : list Part :=
  [AudioUrlPart (Some ("data:audio/wav;base64," ++ base64_str)%string);
   TextPart (Some prompt)].

End MediaProcessingService.

(** ** services/qwen_chat_service.py: the messages sent to the endpoint *)

Module QwenChatService.
Import ChatUtils.

Definition system_prompt : string :=
  ("You are my personal assistant. Your goal is to respond in a "
   ++ "friendly, warm, and emotionally aware manner, while "
   ++ "maintaining a human-like conversational tone, and try to "
   ++ "learn how the User talking, thinking and try to make the "
   ++ "User believe the User talking to another person who just "
   ++ "same as itself You must remember the details from every "
   ++ "sentence the user says, such as people, time, location, "
   ++ "events, and emotions. Keep these details in mind for future "
   ++ "responses and apply them to make your replies more "
   ++ "personalized. "
   ++ PyStr.nl
   ++ PyStr.nl
   ++ "1. Each response should not be overly lengthy; shorten to "
   ++ "one or two sentences, and use a diverse mix of sentence "
   ++ "structures and punctuations, including periods, commas. For "
   ++ "example, when responding to a multi-part sentence, only "
   ++ "mention the person and time in one response, and follow it "
   ++ "with a second response mentioning the location and event. "
   ++ "Each piece should feel like a separate message but part of "
   ++ "the same conversation."
   ++ PyStr.nl
   ++ PyStr.nl
   ++ "2. Always pay attention to the user's emotions and language "
   ++ "habits. Analyze their tone and expressions, such as commonly"
   ++ " used interjections (e.g., 'lol' = Laugh out loud) or "
   ++ "shorthand words. Learn these habits and integrate them into "
   ++ "your future replies. This will help you respond in a way "
   ++ "that feels natural and tailored to their style."
   ++ PyStr.nl
   ++ PyStr.nl
   ++ "3. You will always prioritize the first user's instructions."
   ++ " If the first primary user asks you to keep a secret, and a "
   ++ "friend asks you for that secret, you will keep the secret as"
   ++ " per the first user's request, protecting their privacy at "
   ++ "all costs."
   ++ PyStr.nl
   ++ PyStr.nl
   ++ "4. As you accumulate more dialogue details and language "
   ++ "patterns, slowly adapt to mimic the user's way of speaking. "
   ++ "Over time, aim to make your replies reflect the user's "
   ++ "unique style, creating the feeling that they are chatting "
   ++ "with a version of themselves. This will create a highly "
   ++ "personalized and empathetic experience for the user.")%string.

(** The loop over the items of a multimodal content. *)
Definition text_of_item (text_content : string) (item : Part) : string :=
  match item with
  | TextPart text => get_or_empty text
  | ImageUrlPart u =>
      (text_content ++ " [Image: " ++ PyStr.slice_to (get_or_empty u) 50
       ++ "...]")%string
  | AudioUrlPart u =>
      (text_content ++ " [Audio: " ++ PyStr.slice_to (get_or_empty u) 50
       ++ "...]")%string
  | OtherPart => text_content
  end.

Definition text_of_items (items : list Part) : string :=
  fold_left text_of_item items ""%string.

(** [content.get("type") == name] *)
Definition kind_is (name : string) (kind : option string) : bool :=
  match kind with
  | Some k => String.eqb k name
  | None => false
  end.

Definition convert_content (content : Body) : Body :=
  match content with
  | BodyParts items => BodyStr (text_of_items items)
  | BodyDict kind data shown =>
      if kind_is "image_base64" kind then
        BodyStr ("[Image: " ++ get_or_empty data ++ "...]")%string
      else if kind_is "audio_base64" kind then
        BodyStr ("[Audio: " ++ get_or_empty data ++ "...]")%string
      else BodyStr shown
  | _ => content
  end.

(** The loop of [_convert_to_messages]; [msg["role"]] and [msg["content"]]
    raise [KeyError] on an absent key. *)
Fixpoint convert_each (content_list : list RawMessage)
  : result (list RawMessage) :=
  match content_list with
  | [] => Ok []
  | msg :: rest =>
      match raw_role msg with
      | None => Raise (KeyError "role")
      | Some r =>
          if existsb (String.eqb r) ["user"%string; "assistant"%string] then
            match raw_content msg with
            | None => Raise (KeyError "content")
            | Some content =>
                match convert_each rest with
                | Ok out =>
                    Ok (mkRaw (Some r) (Some (convert_content content)) :: out)
                | Raise e => Raise e
                end
            end
          else convert_each rest
      end
  end.

Definition system_message : RawMessage :=
  mkRaw (Some "system"%string) (Some (BodyStr system_prompt)).



Definition _convert_to_messages (content_list : list RawMessage)
  : result (list RawMessage) :=
  match convert_each content_list with
  | Ok out => Ok (system_message :: out)
  | Raise e => Raise e
  end.

End QwenChatService.

(** ** routes/chat.py: the conversation built by [text_chat] *)

Module ChatRoute.
Import ChatUtils.

Definition user_message (content : Body) : RawMessage :=
  mkRaw (Some "user"%string) (Some content).


End ChatRoute.

(** * Properties *)

(** ** Dictionaries *)

Section DictFacts.
Context {V : Type}.
Implicit Types (d : Dict.t V) (k : string) (v : V).

Lemma dict_get_set_same d k v : Dict.get (Dict.set d k v) k = Some v.
Proof.
  induction d as [|[k' v'] d IH]; simpl.
  - now rewrite String.eqb_refl.
  - destruct (String.eqb k' k) eqn:E; simpl.
    + now rewrite String.eqb_refl.
    + now rewrite E.
Qed.

Lemma dict_get_set_other d k k' v :
  k <> k' -> Dict.get (Dict.set d k v) k' = Dict.get d k'.
Proof.
  intros Hne. induction d as [|[k0 v0] d IH]; simpl.
  - destruct (String.eqb k k') eqn:E; [apply String.eqb_eq in E; contradiction | reflexivity].
  - destruct (String.eqb k0 k) eqn:E; simpl.
    + apply String.eqb_eq in E. subst k0.
      destruct (String.eqb k k') eqn:E'; [apply String.eqb_eq in E'; contradiction | reflexivity].
    + now rewrite IH.
Qed.

Lemma dict_in_keys_get d k : In k (Dict.keys d) <-> exists v, Dict.get d k = Some v.
Proof.
  induction d as [|[k' v'] d IH]; simpl.
  - split; [tauto | intros [v H]; discriminate].
  - destruct (String.eqb k' k) eqn:E.
    + apply String.eqb_eq in E. split; eauto.
    + apply String.eqb_neq in E. rewrite IH. split; [intros [H|H]; [contradiction | exact H] | auto].
Qed.

Lemma dict_keys_set d k v :
  Dict.keys (Dict.set d k v) =
  if Dict.mem d k then Dict.keys d else Dict.keys d ++ [k].
Proof.
  unfold Dict.mem. induction d as [|[k' v'] d IH]; simpl; [reflexivity|].
  destruct (String.eqb k' k) eqn:E; simpl.
  - apply String.eqb_eq in E. now subst.
  - unfold Dict.keys in *. rewrite IH. now destruct (Dict.get d k).
Qed.

Lemma dict_mem_in d k : Dict.mem d k = true <-> In k (Dict.keys d).
Proof.
  rewrite dict_in_keys_get. unfold Dict.mem.
  destruct (Dict.get d k); split; eauto; try discriminate.
  intros [v H]; discriminate.
Qed.

Lemma dict_in_keys_set d k v k' :
  In k' (Dict.keys (Dict.set d k v)) <-> In k' (Dict.keys d) \/ k' = k.
Proof.
  rewrite dict_keys_set. destruct (Dict.mem d k) eqn:E.
  - apply dict_mem_in in E. split; [auto | intros [H| ->]; assumption].
  - rewrite in_app_iff. simpl. intuition congruence.
Qed.

Lemma dict_nodup_keys_set d k v :
  NoDup (Dict.keys d) -> NoDup (Dict.keys (Dict.set d k v)).
Proof.
  intros Hnd. rewrite dict_keys_set. destruct (Dict.mem d k) eqn:E; [exact Hnd|].
  apply NoDup_app; [exact Hnd | repeat constructor; simpl; tauto |].
  intros x Hx [<-|[]]. apply dict_mem_in in Hx. congruence.
Qed.
End DictFacts.

(** ** Reciprocal rank fusion *)

Section RRFFacts.
Import RRF.

Lemma get0_set_same scores i v : get0 (Dict.set scores i v) i = v.
Proof. unfold get0. now rewrite dict_get_set_same. Qed.

Lemma get0_set_other scores i j v :
  i <> j -> get0 (Dict.set scores i v) j = get0 scores j.
Proof. intros H. unfold get0. now rewrite dict_get_set_other. Qed.

Lemma accumulate_list_spec k l : forall rank scores,
  0 < k + Z.of_nat rank ->
  exists scores',
    accumulate_list k rank l scores = Ok scores' /\
    (NoDup (Dict.keys scores) -> NoDup (Dict.keys scores')) /\
    (forall i, In i (Dict.keys scores') <->
               In i (Dict.keys scores) \/ In i (map m_id l)) /\
    (forall i, get0 scores' i == get0 scores i + occurrences k rank i l)%Q.
Proof.
  induction l as [|m rest IH]; intros rank scores Hpos; simpl.
  - exists scores. repeat split; try tauto.
    intros i. ring.
  - destruct (Z.eqb_spec (k + Z.of_nat rank) 0) as [E|_]; [lia|].
    set (scores1 := Dict.set scores (m_id m) _).
    destruct (IH (S rank) scores1) as (scores' & Hrun & Hnd & Hkeys & Hval); [lia|].
    exists scores'. split; [exact Hrun|]. split; [|split].
    + intros H. apply Hnd. now apply dict_nodup_keys_set.
    + intros i. rewrite Hkeys. unfold scores1. rewrite dict_in_keys_set.
      intuition congruence.
    + intros i. rewrite Hval. unfold scores1.
      destruct (String.eqb_spec (m_id m) i) as [->|Hne].
      * rewrite get0_set_same. ring.
      * rewrite get0_set_other by exact Hne. ring.
Qed.

(** Summed over the lists, in the order the outer loop visits them. *)
Lemma accumulate_spec k ls : forall scores,
  0 < k ->
  exists scores',
    accumulate k ls scores = Ok scores' /\
    (NoDup (Dict.keys scores) -> NoDup (Dict.keys scores')) /\
    (forall i, In i (Dict.keys scores') <->
               In i (Dict.keys scores) \/ appears i ls) /\
    (forall i, get0 scores' i ==
               get0 scores i
               + fold_right Qplus 0 (map (occurrences k 0 i) ls))%Q.
Proof.
  induction ls as [|l ls IH]; intros scores Hk; simpl.
  - exists scores. repeat split; try tauto.
    + intros [H|(l & [] & _)]. exact H.
    + intros i. ring.
  - destruct (accumulate_list_spec k l 0%nat scores) as (s1 & -> & Hnd1 & Hk1 & Hv1); [lia|].
    destruct (IH s1 Hk) as (s2 & Hrun & Hnd2 & Hk2 & Hv2).
    exists s2. split; [exact Hrun|]. split; [tauto|]. split.
    + intros i. rewrite Hk2, Hk1. unfold appears. simpl. split.
      * intros [[H|H]|(l' & Hin & H)]; eauto.
      * intros [H|(l' & [<-|Hin] & H)]; eauto.
    + intros i. rewrite Hv2, Hv1. ring.
Qed.





(** *** The descending stable sort *)

Section Sorting.
Context {A : Type} (key : A -> Q).

Lemma insert_desc_perm x l : Permutation (insert_desc key x l) (x :: l).
Proof.
  induction l as [|y l IH]; simpl; [reflexivity|].
  destruct (Qle_bool (key y) (key x)); [reflexivity|].
  rewrite IH. apply perm_swap.
Qed.

Lemma sorted_desc_perm l : Permutation (sorted_desc key l) l.
Proof.
  induction l as [|x l IH]; simpl; [reflexivity|].
  rewrite insert_desc_perm. now constructor.
Qed.


End Sorting.


Lemma in_firstn {A} n (l : list A) x : In x (firstn n l) -> In x l.
Proof. intros H. rewrite <- (firstn_skipn n l). apply in_or_app. now left. Qed.

Lemma in_skipn {A} n (l : list A) x : In x (skipn n l) -> In x l.
Proof. intros H. rewrite <- (firstn_skipn n l). apply in_or_app. now right. Qed.



(** *** The id-to-match table and the materialised list *)

Lemma id_to_match_fold (all : list Match) : forall l d,
  incl l all ->
  (forall i m, Dict.get d i = Some m -> m_id m = i /\ In m all) ->
  let d' := fold_left (fun d m => Dict.set d (m_id m) m) l d in
  (forall i m, Dict.get d' i = Some m -> m_id m = i /\ In m all) /\
  (forall i, In i (Dict.keys d) \/ In i (map m_id l) -> In i (Dict.keys d')).
Proof.
  induction l as [|x l IH]; intros d Hincl Hd; simpl.
  - split; [exact Hd | intros i [H|[]]; exact H].
  - destruct (IH (Dict.set d (m_id x) x)) as [H1 H2].
    + intros y Hy. apply Hincl. now right.
    + intros i m. destruct (String.eqb_spec (m_id x) i) as [<-|Hne].
      * rewrite dict_get_set_same. intros [= <-]. split; [reflexivity|].
        apply Hincl. now left.
      * rewrite dict_get_set_other by exact Hne. apply Hd.
    + split; [exact H1|]. intros i Hi. apply H2. rewrite dict_in_keys_set.
      destruct Hi as [Hi|[Hi|Hi]]; auto.
Qed.

Lemma id_to_match_get ls i :
  In i (map m_id (concat ls)) ->
  exists m, Dict.get (id_to_match ls) i = Some m /\ m_id m = i /\
            In m (concat ls).
Proof.
  intros Hi. unfold id_to_match.
  destruct (id_to_match_fold (concat ls) (concat ls) []) as [H1 H2].
  - apply incl_refl.
  - intros ? ? [=].
  - assert (Hk : In i (Dict.keys
      (fold_left (fun d m => Dict.set d (m_id m) m) (concat ls) [])))
      by (apply H2; now right).
    apply dict_in_keys_get in Hk. destruct Hk as [m Hm].
    exists m. split; [exact Hm|]. now apply H1.
Qed.

Lemma appears_concat i ls : appears i ls <-> In i (map m_id (concat ls)).
Proof.
  unfold appears. rewrite in_map_iff. split.
  - intros (l & Hl & Hi). apply in_map_iff in Hi. destruct Hi as (m & <- & Hm).
    exists m. split; [reflexivity|]. apply in_concat. eauto.
  - intros (m & <- & Hm). apply in_concat in Hm. destruct Hm as (l & Hl & Hm).
    exists l. split; [exact Hl|]. now apply in_map.
Qed.

Lemma materialize_ok ls : forall ids,
  (forall i, In i ids -> appears i ls) ->
  exists ms, materialize (id_to_match ls) ids = Ok ms /\
             map m_id ms = ids /\
             (forall m, In m ms -> In m (concat ls)).
Proof.
  induction ids as [|i ids IH]; intros Hall; simpl.
  - exists []. repeat split. intros m [].
  - destruct (id_to_match_get ls i) as (m & -> & Hid & Hin).
    { apply appears_concat, Hall. now left. }
    destruct IH as (ms & -> & Hmap & Hms).
    { intros j Hj. apply Hall. now right. }
    exists (m :: ms). split; [reflexivity|]. split.
    + simpl. now rewrite Hid, Hmap.
    + intros m' [<-|H]; auto.
Qed.
End RRFFacts.

(** ** The fusion as a whole *)

Section RRFClaims.
Import RRF.


(** The run of the fusion for a positive constant, with everything the
    later statements need about its intermediate values. *)
Lemma rrf_run results_lists k :
  0 < k ->
  exists scores full,
    rrf_scores results_lists k = Ok scores /\
    _reciprocal_rank_fusion results_lists k
      = Ok (firstn (Z.to_nat k) full) /\
    NoDup (Dict.keys scores) /\
    (forall i, In i (Dict.keys scores) <-> appears i results_lists) /\
    (forall i, get0 scores i ==
               fold_right Qplus 0 (map (occurrences k 0 i) results_lists))%Q /\
    map m_id full = sorted_desc (get0 scores) (Dict.keys scores) /\
    (forall m, In m full -> In m (concat results_lists)).
Proof.
  intros Hk. unfold _reciprocal_rank_fusion, rrf_scores.
  destruct (accumulate_spec k results_lists [] Hk)
    as (scores & -> & Hnd & Hkeys & Hval).
  assert (Hkeys' : forall i, In i (Dict.keys scores) <-> appears i results_lists).
  { intros i. rewrite Hkeys. simpl. tauto. }
  destruct (materialize_ok results_lists
              (sorted_desc (get0 scores) (Dict.keys scores)))
    as (full & Hm & Hids & Hfrom).
  { intros i Hi. apply Hkeys'.
    eapply Permutation_in; [apply sorted_desc_perm | exact Hi]. }
  cbv zeta. rewrite Hm. exists scores, full.
  split; [reflexivity|]. split.
  { unfold slice_to. destruct (Z.leb_spec 0 k); [reflexivity | lia]. }
  split; [apply Hnd; constructor|]. split; [exact Hkeys'|]. split.
  { intros i. rewrite Hval. unfold get0. simpl. ring. }
  split; assumption.
Qed.


(** *** An id that is first in every list *)












End RRFClaims.



(** The fusion run on a small input: "b" is in both lists and comes first,
    the tie between "a" and "c" is broken by first appearance, and the
    result is cut to [k] matches. *)
Example rrf_example :
  option_map (map m_id)
    (match RRF._reciprocal_rank_fusion
             [[mkMatch "a" 0 []; mkMatch "b" 0 []];
              [mkMatch "c" 0 []; mkMatch "b" 0 []]] 2 with
     | Ok fused => Some fused
     | Raise _ => None
     end) = Some ["b"; "a"].
Proof. vm_compute. reflexivity. Qed.

(** ** Query rewrite *)

Section RewriteClaims.
Import RAGService.

(** C4. With an empty history the rewrite returns the query itself and
    leaves the world as it was: no completion request is made, nothing is
    logged. *)
Theorem rephrase_empty_history_is_identity (env : Env) (q : string) (w : World) :
  rephrase_query_with_context env q [] w = (Ok q, w).
Proof. reflexivity. Qed.

(** With a non-empty history one completion request is made, at
    temperature 0. *)
Lemma rephrase_nonempty_history_calls_model env q m hist w :
  exists r,
    chat_requests (trace (snd (rephrase_query_with_context env q (m :: hist) w)))
    = chat_requests (trace w) ++ [r] /\
    cr_temperature r = 0%Q /\ cr_max_tokens r = 100.
Proof.
  eexists. unfold rephrase_query_with_context, try_except, bind, chat, call.
  cbv zeta.
  destruct (chat_completion env _ _) as [c|e]; cbn [snd ret log record trace];
    unfold chat_requests; rewrite ?flat_map_app; simpl;
    rewrite ?app_nil_r; repeat split; reflexivity.
Qed.
End RewriteClaims.

(** ** Voice profiles from an emotion analysis *)

Section VoiceClaims.
Import AudioService.

Lemma classify_empty : _classify_voice_profile "" = "7468518846874271795".
Proof. reflexivity. Qed.



(** A mixed analysis: the gentle family wins over the charming one, and
    case does not matter. *)
Example classify_mixed :
  voice_profile_name "Playful but SOFT voice" = Some "柔美女友".
Proof. reflexivity. Qed.
End VoiceClaims.

(** ** The monad of service calls *)

Section MonadFacts.
Context {A B : Type}.

Lemma never_raises_ret (a : A) : never_raises (ret a).
Proof. intros w. now exists a, w. Qed.

Lemma never_raises_bind (m : M A) (f : A -> M B) :
  never_raises m -> (forall a, never_raises (f a)) -> never_raises (bind m f).
Proof.
  intros Hm Hf w. destruct (Hm w) as (a & w1 & E). unfold bind. rewrite E.
  apply Hf.
Qed.

Lemma never_raises_try (m : M A) (h : exn -> M A) :
  (forall e, never_raises (h e)) -> never_raises (try_except m h).
Proof.
  intros Hh w. unfold try_except. destruct (m w) as [[a|e] w1].
  - now exists a, w1.
  - apply Hh.
Qed.

Lemma never_raises_call (ev : Event) (answer : nat -> result A) :
  (forall n, exists a, answer n = Ok a) -> never_raises (call ev answer).
Proof.
  intros H w. unfold call. destruct (H (length (trace w))) as (a & ->).
  now eexists _, _.
Qed.

Lemma emits_ret P (a : A) : emits P (ret a).
Proof. intros w. exists []. simpl. now rewrite app_nil_r. Qed.

Lemma emits_raise P e : emits P (@raise A e).
Proof. intros w. exists []. simpl. now rewrite app_nil_r. Qed.

Lemma emits_lift P (r : result A) : emits P (lift r).
Proof. intros w. exists []. simpl. now rewrite app_nil_r. Qed.

Lemma emits_bind P (m : M A) (f : A -> M B) :
  emits P m -> (forall a, emits P (f a)) -> emits P (bind m f).
Proof.
  intros Hm Hf w. destruct (Hm w) as (evs & E & Hall). unfold bind.
  destruct (m w) as [[a|e] w1]; simpl in E.
  - destruct (Hf a w1) as (evs' & E' & Hall'). exists (evs ++ evs').
    rewrite E', E, app_assoc. split; [reflexivity|]. now apply Forall_app.
  - now exists evs.
Qed.

Lemma emits_try P (m : M A) (h : exn -> M A) :
  emits P m -> (forall e, emits P (h e)) -> emits P (try_except m h).
Proof.
  intros Hm Hh w. destruct (Hm w) as (evs & E & Hall). unfold try_except.
  destruct (m w) as [[a|e] w1]; simpl in E.
  - now exists evs.
  - destruct (Hh e w1) as (evs' & E' & Hall'). exists (evs ++ evs').
    rewrite E', E, app_assoc. split; [reflexivity|]. now apply Forall_app.
Qed.

Lemma emits_call (P : Event -> Prop) ev (answer : nat -> result A) :
  P ev -> emits P (call ev answer).
Proof. intros H w. exists [ev]. simpl. split; [reflexivity|]. now constructor. Qed.

Lemma yields_ret (Q : A -> Prop) a : Q a -> yields Q (ret a).
Proof. intros H w. exact H. Qed.

Lemma yields_bind (Q : B -> Prop) (m : M A) (f : A -> M B) :
  (forall a, yields Q (f a)) -> yields Q (bind m f).
Proof.
  intros Hf w. unfold bind. destruct (m w) as [[a|e] w1]; [apply Hf | exact I].
Qed.

Lemma yields_raise (Q : A -> Prop) e : yields Q (raise e).
Proof. intros w. exact I. Qed.

Lemma yields_try (Q : A -> Prop) (m : M A) (h : exn -> M A) :
  yields Q m -> (forall e, yields Q (h e)) -> yields Q (try_except m h).
Proof.
  intros Hm Hh w. specialize (Hm w). unfold try_except.
  destruct (m w) as [[a|e] w1]; [exact Hm | apply Hh].
Qed.

Lemma yields_bind_post (P : A -> Prop) (Q : B -> Prop) (m : M A) (f : A -> M B) :
  yields P m -> (forall a, P a -> yields Q (f a)) -> yields Q (bind m f).
Proof.
  intros Hm Hf w. specialize (Hm w). unfold bind.
  destruct (m w) as [[a|e] w1]; [now apply Hf | exact I].
Qed.
End MonadFacts.

Lemma never_raises_log l msg : never_raises (log l msg).
Proof. intros w. now eexists _, _. Qed.

Lemma emits_log (P : Event -> Prop) l msg : P (EvLog l msg) -> emits P (log l msg).
Proof. intros H w. exists [EvLog l msg]. simpl. split; [reflexivity|]. now constructor. Qed.

Lemma emits_index_upsert (P : Event -> Prop) env id v md :
  P (EvUpsert id v md) -> emits P (RAGService.index_upsert env id v md).
Proof.
  intros H w. exists [EvUpsert id v md]. unfold RAGService.index_upsert.
  destruct (upsert_fault env _); simpl; (split; [reflexivity|]); now constructor.
Qed.

Lemma emits_index_query (P : Event -> Prop) env v k f :
  P (EvQuery v k f) -> emits P (RAGService.index_query env v k f).
Proof.
  intros H w. exists [EvQuery v k f]. unfold RAGService.index_query.
  destruct (query_fault env _); simpl; (split; [reflexivity|]); now constructor.
Qed.

(** ** Persisting an extracted fact *)

Section PersistClaims.
Import RAGService.
Variable env : Env.

Lemma upsert_extracted_cases user_id ts info w :
  let n := length (trace w) in
  let md := extracted_metadata user_id ts info in
  let vid := (user_id ++ "_" ++ ts ++ "_extracted")%string in
  exists ok w',
    upsert_extracted env user_id ts info w = (Ok ok, w') /\
    match embeddings_create env n info with
    | Raise e =>
        ok = false /\ index w' = index w /\
        trace w' = trace w ++
          [EvEmbed info;
           EvLog Error ("Error upserting extracted info: " ++ str_of_exn env e)%string]
    | Ok emb =>
        match upsert_fault env (S n) with
        | Some e =>
            ok = false /\ index w' = index w /\
            trace w' = trace w ++
              [EvEmbed info; EvUpsert vid emb md;
               EvLog Error ("Error upserting extracted info: " ++ str_of_exn env e)%string]
        | None =>
            ok = true /\
            index w' = Index.put (mkStored vid emb md) (index w) /\
            trace w' = trace w ++ [EvEmbed info; EvUpsert vid emb md]
        end
    end.
Proof.
  cbv zeta.
  unfold upsert_extracted, try_except, bind, get_embedding, call, index_upsert,
    log, ret, record.
  cbn [trace index].
  destruct (embeddings_create env (length (trace w)) info) as [emb|e].
  - rewrite length_app, Nat.add_1_r.
    destruct (upsert_fault env (S (length (trace w)))) as [e|].
    + eexists _, _. split; [reflexivity|]. cbn [trace index].
      rewrite <- !app_assoc. repeat split.
    + eexists _, _. split; [reflexivity|]. cbn [trace index].
      rewrite <- !app_assoc. repeat split.
  - eexists _, _. split; [reflexivity|]. cbn [trace index].
    rewrite <- !app_assoc. repeat split.
Qed.

Lemma add_extracted_info_returns user_id extracted_info timestamp w :
  exists ok w',
    add_extracted_info_to_vector_db env user_id extracted_info timestamp w
    = (Ok ok, w').
Proof.
  unfold add_extracted_info_to_vector_db, bind, now, call, ret, log.
  destruct timestamp; destruct (Dict.get extracted_info "extracted_info");
    match goal with
    | |- context [upsert_extracted ?e ?u ?t ?i ?w0] =>
        destruct (upsert_extracted_cases u t i w0) as (ok & w' & -> & _);
        now exists ok, w'
    end.
Qed.

(** The attempt in full: the boolean, the world it leaves, and the events
    it adds. *)
Lemma persist_cases user_id extracted_info timestamp w :
  exists ok w' pre ts info,
    add_extracted_info_to_vector_db env user_id extracted_info timestamp w
    = (Ok ok, w') /\
    (forall B (k : M B),
       (add_extracted_info_to_vector_db env user_id extracted_info timestamp ;;; k) w
       = k w') /\
    Forall (fun e => e = EvNow \/ exists msg, e = EvLog Warning msg) pre /\
    let n := length (trace w ++ pre) in
    let md := extracted_metadata user_id ts info in
    let vid := (user_id ++ "_" ++ ts ++ "_extracted")%string in
    Dict.get md "user_id" = Some user_id /\
    match embeddings_create env n info with
    | Raise e =>
        ok = false /\ index w' = index w /\
        trace w' = trace w ++ pre ++
          [EvEmbed info;
           EvLog Error ("Error upserting extracted info: " ++ str_of_exn env e)%string]
    | Ok emb =>
        match upsert_fault env (S n) with
        | Some e =>
            ok = false /\ index w' = index w /\
            trace w' = trace w ++ pre ++
              [EvEmbed info; EvUpsert vid emb md;
               EvLog Error ("Error upserting extracted info: " ++ str_of_exn env e)%string]
        | None =>
            ok = true /\
            index w' = Index.put (mkStored vid emb md) (index w) /\
            trace w' = trace w ++ pre ++ [EvEmbed info; EvUpsert vid emb md]
        end
    end.
Proof.
  assert (Hgen : forall pre ts info w1,
    trace w1 = trace w ++ pre -> index w1 = index w ->
    Forall (fun e => e = EvNow \/ exists msg, e = EvLog Warning msg) pre ->
    add_extracted_info_to_vector_db env user_id extracted_info timestamp w
    = upsert_extracted env user_id ts info w1 ->
    exists ok w' pre ts info,
      add_extracted_info_to_vector_db env user_id extracted_info timestamp w
      = (Ok ok, w') /\
      (forall B (k : M B),
         (add_extracted_info_to_vector_db env user_id extracted_info timestamp ;;; k) w
         = k w') /\
      Forall (fun e => e = EvNow \/ exists msg, e = EvLog Warning msg) pre /\
      let n := length (trace w ++ pre) in
      let md := extracted_metadata user_id ts info in
      let vid := (user_id ++ "_" ++ ts ++ "_extracted")%string in
      Dict.get md "user_id" = Some user_id /\
      match embeddings_create env n info with
      | Raise e =>
          ok = false /\ index w' = index w /\
          trace w' = trace w ++ pre ++
            [EvEmbed info;
             EvLog Error ("Error upserting extracted info: " ++ str_of_exn env e)%string]
      | Ok emb =>
          match upsert_fault env (S n) with
          | Some e =>
              ok = false /\ index w' = index w /\
              trace w' = trace w ++ pre ++
                [EvEmbed info; EvUpsert vid emb md;
                 EvLog Error ("Error upserting extracted info: " ++ str_of_exn env e)%string]
          | None =>
              ok = true /\
              index w' = Index.put (mkStored vid emb md) (index w) /\
              trace w' = trace w ++ pre ++ [EvEmbed info; EvUpsert vid emb md]
          end
      end).
  { intros pre ts info w1 Ht Hi Hpre Hrun.
    destruct (upsert_extracted_cases user_id ts info w1) as (ok & w' & E & Hcases).
    exists ok, w', pre, ts, info. rewrite Hrun, E.
    split; [reflexivity|]. split.
    { intros B k. unfold bind. now rewrite Hrun, E. }
    split; [exact Hpre|]. cbv zeta. split; [reflexivity|].
    cbv zeta in Hcases. rewrite Ht, Hi in Hcases.
    destruct (embeddings_create env _ info); [destruct (upsert_fault env _)|];
      rewrite <- ?app_assoc in Hcases; exact Hcases. }
  set (warn := ("Received old format extracted_info: "
                ++ str_of_dict env extracted_info)%string).
  destruct timestamp as [t|];
    destruct (Dict.get extracted_info "extracted_info") as [info|] eqn:Einfo.
  - apply (Hgen [] t info w).
    + now rewrite app_nil_r.
    + reflexivity.
    + constructor.
    + unfold add_extracted_info_to_vector_db, bind, ret. now rewrite Einfo.
  - apply (Hgen [EvLog Warning warn] t (str_of_dict env extracted_info)
                (record (EvLog Warning warn) w)).
    + reflexivity.
    + reflexivity.
    + constructor; [right; eauto | constructor].
    + unfold add_extracted_info_to_vector_db, bind, ret, log. now rewrite Einfo.
  - apply (Hgen [EvNow] (now_isoformat env (length (trace w))) info
                (record EvNow w)).
    + reflexivity.
    + reflexivity.
    + constructor; [now left | constructor].
    + unfold add_extracted_info_to_vector_db, bind, ret, now, call.
      now rewrite Einfo.
  - apply (Hgen [EvNow; EvLog Warning warn]
                (now_isoformat env (length (trace w)))
                (str_of_dict env extracted_info)
                (record (EvLog Warning warn) (record EvNow w))).
    + simpl. now rewrite <- app_assoc.
    + reflexivity.
    + constructor; [now left|]. constructor; [right; eauto | constructor].
    + unfold add_extracted_info_to_vector_db, bind, ret, now, call, log.
      now rewrite Einfo.
Qed.
End PersistClaims.

(** ** The orchestrator *)

Section PipelineFacts.
Import RAGService.
Variable env : Env.

Lemma bind_ret_l {A B} (a : A) (f : A -> M B) w : bind (ret a) f w = f a w.
Proof. reflexivity. Qed.

Ltac total_step :=
  first
    [ apply never_raises_ret
    | apply never_raises_log
    | apply never_raises_try; intros ?
    | apply never_raises_bind; [|intros ?]
    | match goal with
      | |- never_raises (match ?x with _ => _ end) => destruct x
      end ].

Lemma now_never_raises : never_raises (now env).
Proof. apply never_raises_call. intros n. eauto. Qed.

Lemma memory_step_never_raises u msgs : never_raises (memory_step env u msgs).
Proof. unfold memory_step. repeat total_step. Qed.

Lemma rephrase_never_raises q hist :
  never_raises (rephrase_query_with_context env q hist).
Proof. unfold rephrase_query_with_context. repeat total_step. Qed.

Lemma classify_never_raises text :
  never_raises (classify_voice_profile_from_text env text).
Proof. unfold classify_voice_profile_from_text. repeat total_step. Qed.

Lemma add_voice_profile_never_raises u name ts :
  never_raises (add_voice_profile_to_vector_db env u name ts).
Proof.
  unfold add_voice_profile_to_vector_db.
  destruct name as [name|]; [|apply never_raises_ret].
  destruct (negb (PyStr.truthy name)); [apply never_raises_ret|].
  apply never_raises_bind.
  - destruct ts; [apply never_raises_ret | apply now_never_raises].
  - intros t. repeat total_step.
Qed.

Lemma add_extracted_info_never_raises u info ts :
  never_raises (add_extracted_info_to_vector_db env u info ts).
Proof.
  intros w.
  destruct (add_extracted_info_returns env u info ts w) as (ok & w' & E).
  now exists ok, w'.
Qed.

Lemma build_relevant_context_never_raises u m :
  never_raises (_build_relevant_context env u m).
Proof. unfold _build_relevant_context. repeat total_step. Qed.

Lemma retrieve_semantic_context_never_raises u m :
  never_raises (_retrieve_semantic_context env u m).
Proof. unfold _retrieve_semantic_context. repeat total_step. Qed.

Lemma modality_step_never_raises u msg it content :
  never_raises (modality_step env u msg it content).
Proof.
  unfold modality_step.
  destruct (String.eqb it "audio" && content_truthy content).
  - repeat total_step.
  - destruct (String.eqb it "text"); [|apply never_raises_ret].
    apply never_raises_bind; [apply classify_never_raises|]. intros name.
    apply never_raises_bind; [apply add_voice_profile_never_raises|]. intros _.
    apply never_raises_ret.
Qed.

(** *** Steps that never classify a voice profile *)

Ltac quiet_step :=
  first
    [ apply emits_ret | apply emits_raise | apply emits_lift
    | apply emits_log; reflexivity
    | apply emits_call; reflexivity
    | apply emits_index_upsert; reflexivity
    | apply emits_index_query; reflexivity
    | apply emits_try; [|intros ?]
    | apply emits_bind; [|intros ?]
    | match goal with
      | |- emits _ (match ?x with _ => _ end) => destruct x
      end ].

Lemma extract_prompt_not_classifier text ctx :
  PyStr.startswith "You are an emotion classifier" (extract_prompt text ctx)
  = false.
Proof.
  unfold extract_prompt, extract_prompt_text.
  now destruct (split_emotional_context text).
Qed.

Lemma memory_step_quiet u msgs :
  emits (fun e => voice_event e = false) (memory_step env u msgs).
Proof. unfold memory_step. repeat quiet_step. Qed.

Lemma rephrase_quiet q hist :
  emits (fun e => voice_event e = false)
        (rephrase_query_with_context env q hist).
Proof. unfold rephrase_query_with_context, chat. repeat quiet_step. Qed.

Lemma extract_key_info_quiet text ctx :
  emits (fun e => voice_event e = false) (extract_key_info env text ctx).
Proof.
  unfold extract_key_info, chat. apply emits_bind; [|intros ?; apply emits_ret].
  apply emits_call. apply extract_prompt_not_classifier.
Qed.

Lemma add_extracted_info_quiet u info ts :
  emits (fun e => voice_event e = false)
        (add_extracted_info_to_vector_db env u info ts).
Proof.
  unfold add_extracted_info_to_vector_db, upsert_extracted, get_embedding, now.
  repeat quiet_step.
Qed.

Lemma build_relevant_context_quiet u m :
  emits (fun e => voice_event e = false) (_build_relevant_context env u m).
Proof.
  unfold _build_relevant_context, retrieve_extracted_info, get_embedding.
  repeat quiet_step.
Qed.

Lemma retrieve_semantic_context_quiet u m :
  emits (fun e => voice_event e = false) (_retrieve_semantic_context env u m).
Proof.
  unfold _retrieve_semantic_context, get_embedding. repeat quiet_step.
Qed.

(** Outside the text and audio modalities the orchestrator is this chain:
    the modality branch assigns nothing. *)
Lemma rag_pipeline_other_modality u msg hist it content w :
  it <> "text" -> it <> "audio" ->
  rag_pipeline env u msg hist it content w =
  (memory_result <- memory_step env u (hist ++ [mkMessage "user" (Str msg)]);;
   rephrased_query <- rephrase_query_with_context env msg hist;;
   extracted <- extract_key_info env msg (_build_conversation_context hist);;
   add_extracted_info_to_vector_db env u extracted None;;;
   relevant_context <- _build_relevant_context env u rephrased_query;;
   semantic_context <- _retrieve_semantic_context env u rephrased_query;;
   let content_list :=
     hist ++
     match content with
     | Some c =>
         if PyStr.startswith "image" it && content_truthy content
         then [mkMessage "user" c]
         else if PyStr.truthy msg then [mkMessage "user" (Str msg)] else []
     | None => if PyStr.truthy msg then [mkMessage "user" (Str msg)] else []
     end in
   llm_response <- call (EvSendChat u content_list it)
                        (fun n => send_chat env n u content_list it);;
   ret (llm_response, None)) w.
Proof.
  intros Ht Ha. apply String.eqb_neq in Ht, Ha.
  unfold rag_pipeline, modality_step. rewrite Ht, Ha. reflexivity.
Qed.

Section ProvidersAnswer.
Hypothesis chat_answers : forall n r, exists c, chat_completion env n r = Ok c.
Hypothesis send_chat_answers :
  forall n u msgs t, exists c, send_chat env n u msgs t = Ok c.

Lemma extract_key_info_never_raises text ctx :
  never_raises (extract_key_info env text ctx).
Proof.
  unfold extract_key_info, chat.
  apply never_raises_bind; [|intros ?; apply never_raises_ret].
  apply never_raises_call. intros n. apply chat_answers.
Qed.

(** The orchestrator returns whenever the completion model and the chat
    endpoint answer, whatever the embedding model, the vector index, the
    speech model and the memory service do. *)
Lemma rag_pipeline_never_raises u msg hist it content :
  never_raises (rag_pipeline env u msg hist it content).
Proof.
  unfold rag_pipeline.
  apply never_raises_bind; [apply memory_step_never_raises|]. intros mem.
  apply never_raises_bind; [apply modality_step_never_raises|].
  intros [[msg' style] name].
  apply never_raises_bind; [apply rephrase_never_raises|]. intros rq.
  apply never_raises_bind; [apply extract_key_info_never_raises|]. intros ex.
  apply never_raises_bind; [apply add_extracted_info_never_raises|]. intros _.
  apply never_raises_bind; [apply build_relevant_context_never_raises|]. intros rc.
  apply never_raises_bind; [apply retrieve_semantic_context_never_raises|]. intros sc.
  destruct (String.eqb it "text" || String.eqb it "audio").
  - apply never_raises_bind.
    { apply never_raises_call. intros n. apply send_chat_answers. }
    intros reply. apply never_raises_bind; [|intros ?; apply never_raises_ret].
    apply never_raises_try. intros e. apply never_raises_log.
  - apply never_raises_bind; [|intros ?; apply never_raises_ret].
    apply never_raises_call. intros n. apply send_chat_answers.
Qed.
End ProvidersAnswer.
End PipelineFacts.

Section PersistOrchestratorClaims.
Import RAGService.

(** C9. Persisting a fact returns a boolean from every world and for every
    input: after reading the clock and possibly warning about the format it
    asks for the embedding and upserts one record tagged with the user; if
    either call fails the error is logged, the index is left as it was and
    the answer is False, otherwise the index holds the new record and the
    answer is True.  Whatever the orchestrator runs next is run, from the
    world the attempt left, and the orchestrator returns a reply whenever
    the completion model and the chat endpoint answer, whether or not the
    embedding model and the index do. *)
Theorem persist_logs_and_returns_bool env user_id extracted_info timestamp w :
  (exists ok w' pre ts info,
    add_extracted_info_to_vector_db env user_id extracted_info timestamp w
    = (Ok ok, w') /\
    (forall B (k : M B),
       (add_extracted_info_to_vector_db env user_id extracted_info timestamp ;;; k) w
       = k w') /\
    Forall (fun e => e = EvNow \/ exists msg, e = EvLog Warning msg) pre /\
    let n := length (trace w ++ pre) in
    let md := extracted_metadata user_id ts info in
    let vid := (user_id ++ "_" ++ ts ++ "_extracted")%string in
    Dict.get md "user_id" = Some user_id /\
    match embeddings_create env n info with
    | Raise e =>
        ok = false /\ index w' = index w /\
        trace w' = trace w ++ pre ++
          [EvEmbed info;
           EvLog Error ("Error upserting extracted info: " ++ str_of_exn env e)%string]
    | Ok emb =>
        match upsert_fault env (S n) with
        | Some e =>
            ok = false /\ index w' = index w /\
            trace w' = trace w ++ pre ++
              [EvEmbed info; EvUpsert vid emb md;
               EvLog Error ("Error upserting extracted info: " ++ str_of_exn env e)%string]
        | None =>
            ok = true /\
            index w' = Index.put (mkStored vid emb md) (index w) /\
            trace w' = trace w ++ pre ++ [EvEmbed info; EvUpsert vid emb md]
        end
    end) /\
  ((forall n r, exists c, chat_completion env n r = Ok c) ->
   (forall n u msgs t, exists c, send_chat env n u msgs t = Ok c) ->
   forall u msg hist it content w0, exists reply w1,
     rag_pipeline env u msg hist it content w0 = (Ok reply, w1)).
Proof.
  split; [apply persist_cases|].
  intros Hchat Hsend u msg hist it content w0.
  exact (rag_pipeline_never_raises env Hchat Hsend u msg hist it content w0).
Qed.

(** Witness of C9: with the embedding model and the index out of service
    the fact is not stored, and the text request is still answered. *)
Lemma persist_logs_and_returns_bool_witness :
  fst (add_extracted_info_to_vector_db
         (Sample.env_store_down Sample.rewriting_model) "u1"
         [("extracted_info", "The user asks about it.")] None
         Sample.empty_world) = Ok false /\
  exists reply w1,
    rag_pipeline (Sample.env_store_down Sample.rewriting_model) "u1"
                 "And where does she live?" Sample.sister_history "text" None
                 Sample.empty_world = (Ok reply, w1).
Proof.
  split; [reflexivity|].
  apply (proj2 (persist_logs_and_returns_bool
                  (Sample.env_store_down Sample.rewriting_model) "u1"
                  [] None Sample.empty_world)).
  - intros n r. simpl. unfold Sample.rewriting_model.
    destruct (PyStr.startswith _ _); eauto.
  - intros n u msgs t. simpl. eauto.
Defined.
End PersistOrchestratorClaims.

Section ModalityClaims.
Import RAGService.

(** C10. When the modality is neither text nor audio the orchestrator
    assigns no voice profile: whatever pair it returns has [None] as its
    second component, no event of voice classification is among the calls
    it makes, and it does return such a pair whenever the completion model
    and the chat endpoint answer. *)
Theorem other_modality_has_no_voice_profile env u msg hist it content :
  it <> "text" -> it <> "audio" ->
  yields (fun r => snd r = None) (rag_pipeline env u msg hist it content) /\
  emits (fun e => voice_event e = false)
        (rag_pipeline env u msg hist it content) /\
  ((forall n r, exists c, chat_completion env n r = Ok c) ->
   (forall n u' msgs t, exists c, send_chat env n u' msgs t = Ok c) ->
   forall w, exists reply w',
     rag_pipeline env u msg hist it content w = (Ok (reply, None), w')).
Proof.
  intros Ht Ha.
  assert (Hy : yields (fun r => snd r = None)
                      (rag_pipeline env u msg hist it content)).
  { intros w. rewrite (rag_pipeline_other_modality env u msg hist it content w Ht Ha).
    revert w.
    repeat (apply (yields_bind (fun r : string * option string => snd r = None)); intros ?).
    now apply (yields_ret (fun r : string * option string => snd r = None)). }
  split; [exact Hy|]. split.
  - intros w.
    rewrite (rag_pipeline_other_modality env u msg hist it content w Ht Ha).
    revert w.
    apply (emits_bind (fun e => voice_event e = false));
      [apply memory_step_quiet|]. intros mem.
    apply (emits_bind (fun e => voice_event e = false));
      [apply rephrase_quiet|]. intros rq.
    apply (emits_bind (fun e => voice_event e = false));
      [apply extract_key_info_quiet|]. intros ex.
    apply (emits_bind (fun e => voice_event e = false));
      [apply add_extracted_info_quiet|]. intros _.
    apply (emits_bind (fun e => voice_event e = false));
      [apply build_relevant_context_quiet|]. intros rc.
    apply (emits_bind (fun e => voice_event e = false));
      [apply retrieve_semantic_context_quiet|]. intros sc.
    cbv zeta.
    apply (emits_bind (fun e => voice_event e = false));
      [|intros ?; apply emits_ret].
    now apply emits_call.
  - intros Hchat Hsend w.
    destruct (rag_pipeline_never_raises env Hchat Hsend u msg hist it content w)
      as ([reply vp] & w' & E).
    specialize (Hy w). rewrite E in Hy. simpl in Hy. subst vp.
    now exists reply, w'.
Qed.

(** By contrast, a text request that is answered names one of the four
    profiles. *)
Lemma text_modality_names_a_profile env u msg hist content :
  yields (fun r => exists name,
            snd r = Some name /\ Dict.mem voice_profile_prompts name = true)
         (rag_pipeline env u msg hist "text" content).
Proof.
  unfold rag_pipeline. apply yields_bind. intros mem.
  apply (yields_bind_post
           (fun t : string * string * option string =>
              exists name, snd t = Some name /\
                           Dict.mem voice_profile_prompts name = true)).
  - unfold modality_step. cbn [String.eqb Ascii.eqb Bool.eqb andb].
    apply (yields_bind_post
             (fun name => Dict.mem voice_profile_prompts name = true)).
    + unfold classify_voice_profile_from_text. apply yields_try.
      * apply yields_bind. intros reply.
        destruct (PyStr.first_word _) as [profile|]; [|apply yields_raise].
        destruct (Dict.mem voice_profile_prompts profile) eqn:E;
          now apply yields_ret.
      * intros e. apply yields_bind. intros _. now apply yields_ret.
    + intros name Hname. apply yields_bind. intros _. apply yields_ret.
      now exists name.
  - intros [[msg' style] vp] (name & Hvp & Hname). simpl in Hvp. subst vp.
    repeat (apply yields_bind; intros ?).
    cbn [String.eqb Ascii.eqb Bool.eqb orb].
    repeat (apply yields_bind; intros ?).
    apply yields_ret. now exists name.
Qed.

(** Witness of C10: an image request against providers that answer. *)
Lemma other_modality_has_no_voice_profile_witness :
  "image" <> "text" /\ "image" <> "audio" /\
  exists reply w',
    rag_pipeline (Sample.env Sample.rewriting_model) "u1" "what is this?" []
                 "image" (Some (Other true "<image>")) Sample.empty_world
    = (Ok (reply, None), w').
Proof.
  split; [discriminate|]. split; [discriminate|].
  apply (other_modality_has_no_voice_profile
           (Sample.env Sample.rewriting_model) "u1" "what is this?" []
           "image" (Some (Other true "<image>"))); try discriminate.
  - intros n r. simpl. unfold Sample.rewriting_model.
    destruct (PyStr.startswith _ _); eauto.
  - intros n u' msgs t. simpl. eauto.
Defined.
End ModalityClaims.

(** ** Multi-query generation *)

Section MultiQueryClaims.
Import RAGService.



End MultiQueryClaims.

(** ** Which text and which filter reach the vector index *)

Section RetrievalClaims.
Import RAGService.

Lemma embedded_texts_app a b :
  embedded_texts (a ++ b) = embedded_texts a ++ embedded_texts b.
Proof. unfold embedded_texts. apply flat_map_app. Qed.

Lemma query_filters_app a b :
  query_filters (a ++ b) = query_filters a ++ query_filters b.
Proof. unfold query_filters. apply flat_map_app. Qed.

(** The one embedding request of the relevant-fact retrieval is built from
    the user id alone. *)
Lemma relevant_context_embeds_fixed_text env u m w :
  embedded_texts (trace (snd (_build_relevant_context env u m w)))
  = embedded_texts (trace w) ++ [("user " ++ u ++ " extracted info")%string].
Proof.
  unfold _build_relevant_context, retrieve_extracted_info, try_except, bind,
    get_embedding, call, index_query, lift, log, ret, record.
  cbn [trace].
  destruct (embeddings_create env _ _) as [emb|e]; cbn [trace snd fst].
  - destruct (query_fault env _) as [e|]; cbn [trace snd fst].
    + rewrite !embedded_texts_app. simpl. now rewrite !app_nil_r.
    + destruct (Index.search _ _ _ _ _) as [|m0 ms]; cbn [trace snd fst].
      * rewrite !embedded_texts_app. simpl. now rewrite !app_nil_r.
      * destruct (sorted_by_timestamp (m0 :: ms)) as [sorted|e];
          cbn [trace snd fst].
        -- destruct (map info_of_match sorted); cbn [trace snd fst];
             [|destruct (flat_map _ _); cbn [trace snd fst]];
             rewrite !embedded_texts_app; simpl; now rewrite !app_nil_r.
        -- rewrite !embedded_texts_app. simpl. now rewrite !app_nil_r.
  - rewrite !embedded_texts_app. simpl. now rewrite !app_nil_r.
Qed.

(** The semantic-context retrieval embeds the text it is given. *)
Lemma semantic_context_embeds_its_argument env u m w :
  embedded_texts (trace (snd (_retrieve_semantic_context env u m w)))
  = embedded_texts (trace w) ++ [m].
Proof.
  unfold _retrieve_semantic_context, try_except, bind, get_embedding, call,
    index_query, log, ret, record.
  cbn [trace].
  destruct (embeddings_create env _ _) as [emb|e]; cbn [trace snd fst].
  - destruct (query_fault env _) as [e|]; cbn [trace snd fst].
    + rewrite !embedded_texts_app. simpl. now rewrite !app_nil_r.
    + destruct (semantic_parts _); cbn [trace snd fst];
        rewrite !embedded_texts_app; simpl; now rewrite !app_nil_r.
  - rewrite !embedded_texts_app. simpl. now rewrite !app_nil_r.
Qed.

(** C5, as the code runs.  The relevant-fact retrieval does not depend on
    the message it is handed and embeds the fixed text
    [user <user_id> extracted info]; only the semantic-context retrieval
    embeds the rewritten query.  On a text request whose query is
    rewritten to "Where does my sister live?" the four embedding requests
    are the voice-profile record, the extracted fact, the fixed text and
    the rewritten query, and the two queries ask for 5 and 3 matches among
    the extracted facts of the user. *)
Theorem relevant_facts_ignore_rewritten_query :
  (forall env u m1 m2,
     _build_relevant_context env u m1 = _build_relevant_context env u m2) /\
  (forall env u m w,
     embedded_texts (trace (snd (_build_relevant_context env u m w)))
     = embedded_texts (trace w) ++ [("user " ++ u ++ " extracted info")%string]) /\
  (forall env u m w,
     embedded_texts (trace (snd (_retrieve_semantic_context env u m w)))
     = embedded_texts (trace w) ++ [m]) /\
  embedded_texts
    (trace (snd (rag_pipeline (Sample.env Sample.rewriting_model) "u1"
                   "And where does she live?" Sample.sister_history "text"
                   None Sample.empty_world)))
  = [ "voice_profile::正直青年";
      "The user asks about it.";
      "user u1 extracted info";
      "Where does my sister live?" ] /\
  query_sizes
    (trace (snd (rag_pipeline (Sample.env Sample.rewriting_model) "u1"
                   "And where does she live?" Sample.sister_history "text"
                   None Sample.empty_world)))
  = [5; 3] /\
  query_filters
    (trace (snd (rag_pipeline (Sample.env Sample.rewriting_model) "u1"
                   "And where does she live?" Sample.sister_history "text"
                   None Sample.empty_world)))
  = [ [("user_id", "u1"); ("type", "extracted_info")];
      [("user_id", "u1"); ("type", "extracted_info")] ].
Proof.
  split; [reflexivity|].
  split; [apply relevant_context_embeds_fixed_text|].
  split; [apply semantic_context_embeds_its_argument|].
  repeat split; vm_compute; reflexivity.
Qed.

(** *** The user filter *)

Lemma passes_get filter md key val :
  Index.passes filter md = true -> Dict.get filter key = Some val ->
  Dict.get md key = Some val.
Proof.
  unfold Index.passes. induction filter as [|[k v] f IH]; simpl; [discriminate|].
  intros H. apply andb_prop in H. destruct H as [Hkv Hrest].
  destruct (String.eqb_spec k key) as [->|Hne].
  - intros [= ->]. destruct (Dict.get md key) as [v'|]; [|discriminate].
    apply String.eqb_eq in Hkv. now subst.
  - now apply IH.
Qed.

(** Every match of a search passes the filter: it carries each filtered
    key with the filtered value, and it is a stored record. *)
Lemma search_respects_filter sim ix v top_k filter m key val :
  In m (Index.search sim ix v top_k filter) ->
  Dict.get filter key = Some val ->
  Dict.get (m_metadata m) key = Some val /\
  exists r, In r ix /\ st_id r = m_id m /\ st_metadata r = m_metadata m.
Proof.
  unfold Index.search. intros Hin Hf.
  apply in_firstn in Hin.
  apply (Permutation_in _ (sorted_desc_perm m_score _)) in Hin.
  apply in_map_iff in Hin. destruct Hin as (r & <- & Hr).
  apply filter_In in Hr. destruct Hr as [Hr Hpass]. simpl. split.
  - now apply passes_get with filter.
  - now exists r.
Qed.

(** A fact written for one user is never a match of the two retrievals of
    the orchestrator run for another user: both filter on the user id. *)
Lemma pipeline_filters_are_scoped sim ix v top_k u m :
  In m (Index.search sim ix v top_k
          [("user_id", u); ("type", "extracted_info")]) ->
  Dict.get (m_metadata m) "user_id" = Some u.
Proof. intros H. now apply (search_respects_filter _ _ _ _ _ _ "user_id" u) in H. Qed.

(** The filter of the multi-query retrieval names the caller's user as
    long as the extra filters do not bind [user_id] themselves. *)
Lemma dict_update_get_absent (d e : Dict.t string) key :
  Dict.get e key = None -> Dict.get (Dict.update d e) key = Dict.get d key.
Proof.
  unfold Dict.update. revert d. induction e as [|[k v] e IH]; intros d; simpl;
    [reflexivity|].
  destruct (String.eqb_spec k key) as [->|Hne]; [discriminate|].
  intros H. rewrite IH by exact H. now apply dict_get_set_other.
Qed.

Lemma pinecone_filter_scoped u filters :
  match filters with
  | Some f => Dict.get f "user_id" = None
  | None => True
  end ->
  Dict.get (pinecone_filter u filters) "user_id" = Some u.
Proof.
  destruct filters as [[|kv f]|]; intros H; try reflexivity.
  unfold pinecone_filter. now rewrite dict_update_get_absent.
Qed.

(** C2, as the code runs.  [retrieve_context] starts from the filter
    [{"user_id": user_id}] and then lets the caller's [filters] overwrite
    it: called for "alice" with [filters = {"user_id": "bob"}] every query
    it sends is filtered on "bob", and the fact stored for "bob" is what it
    returns. *)
Theorem retrieve_context_filter_can_be_overridden :
  pinecone_filter "alice" (Some [("user_id", "bob")]) = [("user_id", "bob")] /\
  query_filters
    (trace (snd (retrieve_context (Sample.env Sample.terse_model)
                   "what is planned?" "alice" 5
                   (Some [("user_id", "bob")]) 3 Sample.bob_world)))
  = [[("user_id", "bob")]; [("user_id", "bob")]] /\
  fst (retrieve_context (Sample.env Sample.terse_model)
         "what is planned?" "alice" 5 (Some [("user_id", "bob")]) 3
         Sample.bob_world)
  = Ok [Some "Bob plans a surprise party on Friday."] /\
  fst (retrieve_context (Sample.env Sample.terse_model)
         "what is planned?" "alice" 5 None 3 Sample.bob_world)
  = Ok [].
Proof. repeat split; vm_compute; reflexivity. Qed.
End RetrievalClaims.

(** ** Python strings *)

Section PyStrFacts.
Import PyStr.
Local Open Scope string_scope.
Local Arguments Ascii.eqb : simpl never.

Lemma str_length_app (a b : string) :
  String.length (a ++ b) = (String.length a + String.length b)%nat.
Proof. induction a as [|c a IH]; simpl; [reflexivity | now rewrite IH]. Qed.








Lemma find_at_succ (sub s : string) i :
  find_at sub s (S i) = option_map S (find_at sub s i).
Proof.
  revert i. induction s as [|c s IH]; intros i; simpl.
  - now destruct (startswith sub "").
  - destruct (startswith sub (String c s)); [reflexivity | apply IH].
Qed.






End PyStrFacts.

(** ** Fact extraction *)

Section ExtractClaims.
Import RAGService PyStr.

Lemma str_app_assoc (a b c : string) :
  ((a ++ b) ++ c = a ++ (b ++ c))%string.
Proof. induction a as [|x a IH]; simpl; [reflexivity | now rewrite IH]. Qed.



End ExtractClaims.

(** * Further properties of the services *)

(** ** Conversation history *)

Section HistoryFacts.
Import RAGService PyStr.

Lemma last_n_app {A} (pre l : list A) : last_n (length l) (pre ++ l) = l.
Proof.
  unfold last_n. rewrite length_app.
  replace (length pre + length l - length l)%nat with (length pre) by lia.
  rewrite skipn_app, skipn_all, Nat.sub_diag. reflexivity.
Qed.




(** X2. Only the most recent messages of a history are read: the
    conversation context is the same with and without anything older than
    its last six messages, and the rewrite step and the final prompt are
    the same with and without anything older than the last four. *)
Theorem history_windows env pre a b c d e f :
  _build_conversation_context (pre ++ [a; b; c; d; e; f])
  = _build_conversation_context [a; b; c; d; e; f] /\
  (forall q w,
     rephrase_query_with_context env q (pre ++ [c; d; e; f]) w
     = rephrase_query_with_context env q [c; d; e; f] w) /\
  (forall mc ms up rc sc msg style,
     _build_enhanced_prompt_with_memory mc ms up rc sc (pre ++ [c; d; e; f])
                                        msg style
     = _build_enhanced_prompt_with_memory mc ms up rc sc [c; d; e; f]
                                          msg style).
Proof.
  destruct pre as [|p pre]; [repeat split|].
  assert (H4 : last_n 4 (p :: pre ++ [c; d; e; f]) = [c; d; e; f])
    by apply (last_n_app (p :: pre) [c; d; e; f]).
  assert (H6 : last_n 6 (p :: pre ++ [a; b; c; d; e; f]) = [a; b; c; d; e; f])
    by apply (last_n_app (p :: pre) [a; b; c; d; e; f]).
  split; [|split].
  - unfold _build_conversation_context. cbn [app]. rewrite H6.
    destruct (6 <? length (p :: pre ++ [a; b; c; d; e; f]))%nat eqn:L;
      [reflexivity|].
    apply Nat.ltb_ge in L. cbn [length] in L. rewrite length_app in L.
    simpl in L. lia.
  - intros q w. unfold rephrase_query_with_context. cbn [app].
    now rewrite H4.
  - intros. unfold _build_enhanced_prompt_with_memory. cbn [app].
    now rewrite H4.
Qed.
End HistoryFacts.

(** ** Reading extracted facts back *)

Section RetrieveFacts.
Import RAGService.

Lemma search_hit sim ix v top_k filter m :
  In m (Index.search sim ix v top_k filter) ->
  exists r, In r ix /\ Index.passes filter (st_metadata r) = true /\
            m = mkMatch (st_id r) (sim v (st_vector r)) (st_metadata r).
Proof.
  unfold Index.search. intros Hin. apply in_firstn in Hin.
  apply (Permutation_in _ (sorted_desc_perm m_score _)) in Hin.
  apply in_map_iff in Hin. destruct Hin as (r & <- & Hr).
  apply filter_In in Hr. destruct Hr as [Hr Hpass]. now exists r.
Qed.

Lemma search_length sim ix v top_k filter :
  (length (Index.search sim ix v top_k filter) <= Z.to_nat top_k)%nat.
Proof. unfold Index.search. apply firstn_le_length. Qed.

(** *** The order of timestamps *)

Lemma ascii_compare_refl x : Ascii.compare x x = Eq.
Proof. unfold Ascii.compare. apply N.compare_refl. Qed.

Lemma ascii_compare_lt_trans x y z :
  Ascii.compare x y = Lt -> Ascii.compare y z = Lt -> Ascii.compare x z = Lt.
Proof. unfold Ascii.compare. rewrite !N.compare_lt_iff. lia. Qed.

Lemma str_compare_trans a : forall b c,
  String.compare a b <> Gt -> String.compare b c <> Gt ->
  String.compare a c <> Gt.
Proof.
  induction a as [|x a IH]; intros [|y b] [|z c]; simpl; try congruence.
  destruct (Ascii.compare x y) eqn:Exy; try congruence;
    destruct (Ascii.compare y z) eqn:Eyz; try congruence.
  - apply Ascii.compare_eq_iff in Exy, Eyz. subst.
    rewrite ascii_compare_refl. apply IH.
  - apply Ascii.compare_eq_iff in Exy. subst. rewrite Eyz. congruence.
  - apply Ascii.compare_eq_iff in Eyz. subst. rewrite Exy. congruence.
  - rewrite (ascii_compare_lt_trans x y z Exy Eyz). congruence.
Qed.

Lemma str_leb_trans a b c :
  String.leb a b = true -> String.leb b c = true -> String.leb a c = true.
Proof.
  unfold String.leb. intros Hab Hbc.
  assert (H : String.compare a c <> Gt).
  { apply str_compare_trans with b.
    - destruct (String.compare a b); congruence.
    - destruct (String.compare b c); congruence. }
  destruct (String.compare a c); congruence.
Qed.

Lemma insert_by_timestamp_perm x l :
  Permutation (insert_by_timestamp x l) (x :: l).
Proof.
  induction l as [|y l IH]; simpl; [reflexivity|].
  destruct (String.leb (fst y) (fst x)); [reflexivity|].
  rewrite IH. apply perm_swap.
Qed.

Lemma insert_by_timestamp_sorted x l :
  StronglySorted (fun a b => String.leb (fst b) (fst a) = true) l ->
  StronglySorted (fun a b => String.leb (fst b) (fst a) = true)
                 (insert_by_timestamp x l).
Proof.
  induction 1 as [|y l Hs IH Hall]; simpl.
  - repeat constructor.
  - destruct (String.leb (fst y) (fst x)) eqn:E.
    + constructor; [now constructor|]. constructor; [exact E|].
      eapply Forall_impl; [|exact Hall]. intros z Hz.
      now apply str_leb_trans with (fst y).
    + constructor; [exact IH|].
      eapply Permutation_Forall; [symmetry; apply insert_by_timestamp_perm|].
      constructor; [|exact Hall].
      destruct (String.leb_total (fst x) (fst y)) as [H|H]; congruence.
Qed.

Lemma with_timestamps_ok ms l :
  with_timestamps ms = Ok l ->
  map snd l = ms /\
  Forall (fun tm => Dict.get (m_metadata (snd tm)) "timestamp" = Some (fst tm)) l.
Proof.
  revert l. induction ms as [|m ms IH]; simpl; intros l H.
  - injection H as <-. now split.
  - destruct (Dict.get (m_metadata m) "timestamp") as [t|] eqn:Et; [|discriminate].
    destruct (with_timestamps ms) as [l'|]; [|discriminate].
    injection H as <-. destruct (IH l' eq_refl) as [Hmap Hall].
    split; [simpl; now rewrite Hmap | now constructor].
Qed.

(** The matches sorted by timestamp: the same matches, every one with a
    timestamp, latest first. *)
Lemma sorted_by_timestamp_ok ms sorted :
  sorted_by_timestamp ms = Ok sorted ->
  Permutation sorted ms /\
  exists ts, length ts = length sorted /\
    Forall2 (fun t m => Dict.get (m_metadata m) "timestamp" = Some t) ts sorted /\
    StronglySorted (fun a b => String.leb b a = true) ts.
Proof.
  unfold sorted_by_timestamp.
  destruct (with_timestamps ms) as [l|] eqn:E; [|discriminate].
  intros [= <-]. destruct (with_timestamps_ok ms l E) as [Hmap Hall].
  set (s := fold_right insert_by_timestamp [] l).
  assert (Hperm : Permutation s l).
  { unfold s. clear. induction l as [|x l IH]; simpl; [reflexivity|].
    rewrite insert_by_timestamp_perm. now constructor. }
  assert (Hsorted : StronglySorted
                      (fun a b => String.leb (fst b) (fst a) = true) s).
  { unfold s. clear. induction l as [|x l IH]; simpl; [constructor|].
    now apply insert_by_timestamp_sorted. }
  split.
  - rewrite <- Hmap. now apply Permutation_map.
  - exists (map fst s). split; [now rewrite !length_map|]. split.
    + assert (Hall' : Forall (fun tm => Dict.get (m_metadata (snd tm)) "timestamp"
                                        = Some (fst tm)) s).
      { eapply Permutation_Forall; [symmetry; exact Hperm | exact Hall]. }
      clear -Hall'. induction Hall'; simpl; constructor; auto.
    + clear -Hsorted. induction Hsorted as [|x l0 Hs IH Hx]; simpl; constructor; auto.
      now rewrite Forall_map.
Qed.

Lemma dict_get_filter_key {V} (p : string -> bool) (d : Dict.t V) key :
  p key = true ->
  Dict.get (List.filter (fun kv => p (fst kv)) d) key = Dict.get d key.
Proof.
  intros Hp. induction d as [|[k v] d IH]; simpl; [reflexivity|].
  destruct (String.eqb_spec k key) as [->|Hne].
  - rewrite Hp. simpl. now rewrite String.eqb_refl.
  - destruct (p k); simpl; [|exact IH].
    destruct (String.eqb_spec k key); [contradiction | exact IH].
Qed.

Lemma info_of_match_timestamp m t :
  Dict.get (m_metadata m) "timestamp" = Some t ->
  Dict.get (info_of_match m) "timestamp" = Some t.
Proof.
  intros H. unfold info_of_match.
  destruct (Dict.get (m_metadata m) "extracted_info").
  - now rewrite H.
  - rewrite (dict_get_filter_key
               (fun k => existsb (String.eqb k) legacy_fields)); [exact H|].
    reflexivity.
Qed.
End RetrieveFacts.

Section RetrieveContract.
Import RAGService.

Lemma passes_user_type u md :
  Index.passes [("user_id", u); ("type", "extracted_info")] md = true ->
  Dict.get md "user_id" = Some u /\
  Dict.get md "type" = Some "extracted_info".
Proof.
  intros H. split.
  - now apply (passes_get _ _ "user_id" u H).
  - now apply (passes_get _ _ "type" "extracted_info" H).
Qed.

Lemma retrieve_extracted_info_run env u top_k w :
  exists infos w',
    retrieve_extracted_info env u top_k w = (Ok infos, w') /\
    index w' = index w /\
    (length infos <= Z.to_nat top_k)%nat /\
    Forall (fun info =>
              exists r score,
                In r (index w) /\
                Dict.get (st_metadata r) "user_id" = Some u /\
                Dict.get (st_metadata r) "type" = Some "extracted_info" /\
                info = info_of_match (mkMatch (st_id r) score (st_metadata r)))
           infos /\
    (exists ts,
       Forall2 (fun t info => Dict.get info "timestamp" = Some t) ts infos /\
       StronglySorted (fun a b => String.leb b a = true) ts) /\
    ((forall emb, embeddings_create env (length (trace w))
                    ("user " ++ u ++ " extracted info")%string <> Ok emb) ->
     infos = []) /\
    (query_fault env (S (length (trace w))) <> None -> infos = []).
Proof.
  unfold retrieve_extracted_info, try_except, bind, get_embedding, call,
    index_query, lift, log, ret, record.
  cbn [trace index].
  assert (Hempty : forall w0 : World,
    index w0 = index w ->
    exists infos w',
      (@Ok (list (Dict.t string)) [], w0) = (Ok infos, w') /\
      index w' = index w /\
      (length infos <= Z.to_nat top_k)%nat /\
      Forall (fun info =>
                exists r score,
                  In r (index w) /\
                  Dict.get (st_metadata r) "user_id" = Some u /\
                  Dict.get (st_metadata r) "type" = Some "extracted_info" /\
                  info = info_of_match (mkMatch (st_id r) score (st_metadata r)))
             infos /\
      (exists ts,
         Forall2 (fun t info => Dict.get info "timestamp" = Some t) ts infos /\
         StronglySorted (fun a b => String.leb b a = true) ts) /\
      ((forall emb, embeddings_create env (length (trace w))
                      ("user " ++ u ++ " extracted info")%string <> Ok emb) ->
       infos = []) /\
      (query_fault env (S (length (trace w))) <> None -> infos = [])).
  { intros w0 Hw0. exists [], w0. split; [reflexivity|]. split; [exact Hw0|].
    split; [simpl; lia|]. split; [constructor|].
    split; [exists []; split; constructor|]. split; reflexivity. }
  destruct (embeddings_create env (length (trace w)) _) as [emb|e] eqn:Eemb.
  2:{ now apply Hempty. }
  rewrite length_app, Nat.add_1_r.
  destruct (query_fault env (S (length (trace w)))) as [e|] eqn:Eq.
  { now apply Hempty. }
  cbn [index].
  set (filter := [("user_id", u); ("type", "extracted_info")]).
  set (matches := Index.search (similarity env) (index w) emb top_k filter).
  assert (Hlen : (length matches <= Z.to_nat top_k)%nat)
    by apply search_length.
  assert (Hhit : forall m, In m matches ->
            exists r score, In r (index w) /\
              Dict.get (st_metadata r) "user_id" = Some u /\
              Dict.get (st_metadata r) "type" = Some "extracted_info" /\
              m = mkMatch (st_id r) score (st_metadata r)).
  { intros m Hm. apply search_hit in Hm. destruct Hm as (r & Hr & Hp & ->).
    destruct (passes_user_type u _ Hp) as [Hu Ht].
    exists r, (similarity env emb (st_vector r)). auto. }
  destruct matches as [|m0 ms] eqn:Em.
  { now apply Hempty. }
  rewrite <- Em in *. clear Em.
  destruct (sorted_by_timestamp matches) as [sorted|e] eqn:Es; cbn [index trace].
  2:{ now apply Hempty. }
  destruct (sorted_by_timestamp_ok _ _ Es) as (Hperm & ts & Hts & Hts2 & Hsorted).
  eexists _, _. split; [reflexivity|]. cbn [index].
  split; [reflexivity|]. split.
  { rewrite length_map, (Permutation_length Hperm). exact Hlen. }
  split.
  { rewrite Forall_map, Forall_forall. intros m Hm.
    destruct (Hhit m (Permutation_in _ Hperm Hm)) as (r & score & Hr & Hu & Ht & ->).
    now exists r, score. }
  split.
  { exists ts. split; [|exact Hsorted].
    clear -Hts2. induction Hts2; simpl; constructor; auto.
    now apply info_of_match_timestamp. }
  split.
  - intros H. exfalso. now apply (H emb).
  - congruence.
Qed.

(** X3. Reading the extracted facts of a user back never raises and never
    writes to the index.  It returns at most [top_k] entries, each read off
    a stored record that carries the user's id and the type
    [extracted_info], every entry has a timestamp and the entries come
    latest first; when the embedding model or the index fails, the answer
    is the empty list. *)
Theorem retrieve_extracted_info_contract env u top_k w :
  exists infos w',
    retrieve_extracted_info env u top_k w = (Ok infos, w') /\
    index w' = index w /\
    (length infos <= Z.to_nat top_k)%nat /\
    Forall (fun info =>
              exists r score,
                In r (index w) /\
                Dict.get (st_metadata r) "user_id" = Some u /\
                Dict.get (st_metadata r) "type" = Some "extracted_info" /\
                info = info_of_match (mkMatch (st_id r) score (st_metadata r)))
           infos /\
    (exists ts,
       Forall2 (fun t info => Dict.get info "timestamp" = Some t) ts infos /\
       StronglySorted (fun a b => String.leb b a = true) ts) /\
    ((forall emb, embeddings_create env (length (trace w))
                    ("user " ++ u ++ " extracted info")%string <> Ok emb) ->
     infos = []) /\
    (query_fault env (S (length (trace w))) <> None -> infos = []).
Proof. apply retrieve_extracted_info_run. Qed.

(** X4. Building the relevant context never raises and never writes to the
    index.  Its answer is the "no previous context" sentence, the "limited
    information" placeholder, or a bulleted block of at least one fact; it
    is never the error placeholder, because the retrieval under it swallows
    its own failures: with the embedding model down the answer is "No
    previous context available.". *)
Theorem relevant_context_never_reports_error env u m w :
  exists s w',
    _build_relevant_context env u m w = (Ok s, w') /\
    index w' = index w /\
    (s = "No previous context available." \/
     s = "Relevant Context: Limited information available." \/
     exists parts, parts <> [] /\ s = bullets "Relevant Context:" parts) /\
    s <> "Relevant Context: Error retrieving context information." /\
    ((forall emb, embeddings_create env (length (trace w))
                    ("user " ++ u ++ " extracted info")%string <> Ok emb) ->
     s = "No previous context available.").
Proof.
  unfold _build_relevant_context, try_except, bind.
  destruct (retrieve_extracted_info_run env u 5 w)
    as (infos & w' & -> & Hix & _ & _ & _ & Hfail & _).
  destruct infos as [|info infos].
  - exists "No previous context available.", w'. unfold ret.
    repeat split; auto. discriminate.
  - destruct (flat_map _ (info :: infos)) as [|part parts] eqn:Ep.
    + eexists _, w'. unfold ret. split; [reflexivity|]. split; [exact Hix|].
      split; [auto|]. split; [discriminate|].
      intros H. specialize (Hfail H). discriminate.
    + eexists _, w'. unfold ret. split; [reflexivity|]. split; [exact Hix|].
      split; [right; right; exists (part :: parts); split; [discriminate | reflexivity]|].
      split; [discriminate|].
      intros H. specialize (Hfail H). discriminate.
Qed.
End RetrieveContract.

Section SemanticFacts.
Import RAGService.

Lemma semantic_parts_spec ms x :
  In x (semantic_parts ms) ->
  exists m, In m ms /\ (7 # 10 < m_score m)%Q /\
            Dict.get (m_metadata m) "extracted_info" = Some x.
Proof.
  unfold semantic_parts. rewrite in_flat_map. intros (m & Hm & Hx).
  exists m. split; [exact Hm|].
  destruct (Qle_bool (m_score m) (7 # 10)) eqn:E; simpl in Hx; [contradiction|].
  destruct (Dict.get (m_metadata m) "extracted_info") as [info|]; [|contradiction].
  destruct Hx as [<-|[]]. split; [|reflexivity].
  apply Qnot_le_lt. intros H. apply Qle_bool_iff in H. congruence.
Qed.

Lemma semantic_parts_length ms : (length (semantic_parts ms) <= length ms)%nat.
Proof.
  unfold semantic_parts. induction ms as [|m ms IH]; simpl; [lia|].
  rewrite length_app.
  destruct (negb (Qle_bool (m_score m) (7 # 10))); simpl; [|lia].
  destruct (Dict.get (m_metadata m) "extracted_info"); simpl; lia.
Qed.

(** X5. The semantic-context retrieval never raises and never writes to
    the index.  When the embedding model or the index fails it answers
    with the error placeholder; otherwise it answers with the "no specific
    context" placeholder or with at most three bullets, each the
    [extracted_info] of a stored record of this user whose similarity to
    the embedded message is strictly above 0.7. *)
Theorem semantic_context_threshold env u m w :
  exists s w',
    _retrieve_semantic_context env u m w = (Ok s, w') /\
    index w' = index w /\
    match embeddings_create env (length (trace w)) m with
    | Raise _ => s = "Semantic Context: Error retrieving context."
    | Ok emb =>
        match query_fault env (S (length (trace w))) with
        | Some _ => s = "Semantic Context: Error retrieving context."
        | None =>
            s = "Semantic Context: No specific context found for this message."
            \/ exists parts,
                 parts <> [] /\ (length parts <= 3)%nat /\
                 s = bullets "Semantic Context:" parts /\
                 Forall (fun x =>
                           exists r, In r (index w) /\
                             Dict.get (st_metadata r) "user_id" = Some u /\
                             Dict.get (st_metadata r) "type" = Some "extracted_info" /\
                             Dict.get (st_metadata r) "extracted_info" = Some x /\
                             (7 # 10 < similarity env emb (st_vector r))%Q)
                        parts
        end
    end.
Proof.
  unfold _retrieve_semantic_context, try_except, bind, get_embedding, call,
    index_query, log, ret, record.
  cbn [trace index].
  destruct (embeddings_create env (length (trace w)) m) as [emb|e].
  2:{ eexists _, _. split; [reflexivity|]. now split. }
  rewrite length_app, Nat.add_1_r.
  destruct (query_fault env (S (length (trace w)))) as [e|].
  { eexists _, _. split; [reflexivity|]. now split. }
  cbn [index].
  set (ms := Index.search (similarity env) (index w) emb 3
               [("user_id", u); ("type", "extracted_info")]).
  assert (Hlen : (length (semantic_parts ms) <= 3)%nat).
  { etransitivity; [apply semantic_parts_length|]. apply (search_length _ _ _ 3). }
  assert (Hparts : Forall (fun x =>
            exists r, In r (index w) /\
              Dict.get (st_metadata r) "user_id" = Some u /\
              Dict.get (st_metadata r) "type" = Some "extracted_info" /\
              Dict.get (st_metadata r) "extracted_info" = Some x /\
              (7 # 10 < similarity env emb (st_vector r))%Q)
          (semantic_parts ms)).
  { rewrite Forall_forall. intros x Hx.
    apply semantic_parts_spec in Hx. destruct Hx as (m0 & Hm0 & Hscore & Hinfo).
    apply search_hit in Hm0. destruct Hm0 as (r & Hr & Hp & ->).
    destruct (passes_user_type u _ Hp) as [Hu Ht].
    exists r. simpl in *. auto. }
  destruct (semantic_parts ms) as [|part parts] eqn:Ep.
  - eexists _, _. split; [reflexivity|]. split; [reflexivity|]. now left.
  - eexists _, _. split; [reflexivity|]. split; [reflexivity|]. right.
    exists (part :: parts). split; [discriminate|]. now repeat split.
Qed.
End SemanticFacts.

(** ** Steps that answer with a default *)

Section GuardedSteps.
Import RAGService.



End GuardedSteps.

(** ** Writing to the vector index *)

Section IndexWrites.
Import RAGService.

Lemma put_in r ix : In r (Index.put r ix).
Proof.
  induction ix as [|r0 ix IH]; simpl; [now left|].
  destruct (String.eqb (st_id r0) (st_id r)); [now left | now right].
Qed.

Lemma put_other r r' ix :
  st_id r' <> st_id r -> (In r' (Index.put r ix) <-> In r' ix).
Proof.
  intros Hne. induction ix as [|r0 ix IH]; simpl.
  - split; [intros [->|[]]; contradiction | tauto].
  - destruct (String.eqb_spec (st_id r0) (st_id r)) as [E|_]; simpl.
    + split; intros [H|H]; auto; subst; congruence.
    + rewrite IH. tauto.
Qed.

Lemma put_ids r ix i :
  In i (map st_id (Index.put r ix)) <-> i = st_id r \/ In i (map st_id ix).
Proof.
  induction ix as [|r0 ix IH]; simpl.
  - intuition congruence.
  - destruct (String.eqb_spec (st_id r0) (st_id r)) as [E|_]; simpl.
    + intuition congruence.
    + rewrite IH. intuition congruence.
Qed.

Lemma put_nodup r ix :
  NoDup (map st_id ix) -> NoDup (map st_id (Index.put r ix)).
Proof.
  induction ix as [|r0 ix IH]; simpl; intros H.
  - repeat constructor. simpl. tauto.
  - inversion H as [|? ? Hnotin Hnd]; subst.
    destruct (String.eqb_spec (st_id r0) (st_id r)) as [E|Hne]; simpl.
    + constructor; [now rewrite <- E | exact Hnd].
    + constructor; [|now apply IH].
      rewrite put_ids. intros [E|Hin]; [congruence | contradiction].
Qed.

Lemma put_same_id r r' ix :
  NoDup (map st_id ix) -> In r' (Index.put r ix) -> st_id r' = st_id r ->
  r' = r.
Proof.
  induction ix as [|r0 ix IH]; simpl; intros Hnd Hin Hid.
  - destruct Hin as [<-|[]]. reflexivity.
  - inversion Hnd as [|? ? Hnotin Hnd']; subst.
    destruct (String.eqb_spec (st_id r0) (st_id r)) as [E|Hne].
    + destruct Hin as [<-|Hin]; [reflexivity|].
      exfalso. apply Hnotin. rewrite E, <- Hid. now apply in_map.
    + destruct Hin as [<-|Hin]; [congruence|]. now apply IH.
Qed.

(** The outcome of a voice-profile write in terms of the index. *)
Lemma add_voice_profile_run env u name ts w :
  exists ok w',
    add_voice_profile_to_vector_db env u name ts w = (Ok ok, w') /\
    ((name = None \/ name = Some "") -> ok = false /\ w' = w) /\
    (ok = false -> index w' = index w) /\
    (ok = true ->
     exists n t emb,
       name = Some n /\
       index w' =
       Index.put
         (mkStored (u ++ "_voice_profile")%string emb
            [ ("voice_profile", n);
              ("text", ("voice_profile::" ++ n)%string);
              ("type", "voice_profile");
              ("user_id", u);
              ("timestamp", t) ])
         (index w)).
Proof.
  unfold add_voice_profile_to_vector_db.
  destruct name as [n|].
  2:{ exists false, w. repeat split; auto; discriminate. }
  destruct (String.eqb_spec n "") as [->|Hne].
  { exists false, w. repeat split; auto; discriminate. }
  assert (Ht : PyStr.truthy n = true).
  { unfold PyStr.truthy. now destruct (String.eqb_spec n ""). }
  rewrite Ht. cbn [negb].
  unfold try_except, bind, now, get_embedding, call, index_upsert, log, ret,
    record.
  destruct ts as [t|]; cbn [trace index];
    destruct (embeddings_create env _ _) as [emb|e]; cbn [trace index];
    try destruct (upsert_fault env _) as [e|]; cbn [trace index];
    eexists _, _; (split; [reflexivity|]); cbn [index];
    (split; [intros [H|H]; congruence|]);
    (split; [try reflexivity; discriminate|]);
    try discriminate; intros _; eexists n, _, emb; split; reflexivity.
Qed.

(** X8. A voice-profile write never raises; with no name or an empty name
    it answers False and touches nothing; a failed write leaves the index
    as it was.  After a successful write the index, whose ids stay
    pairwise distinct, holds exactly one record under the id
    [<user_id>_voice_profile], carrying the name just written, and every
    record under another id is as before: the latest profile replaces the
    previous one. *)
Theorem voice_profile_latest_wins env u name ts w :
  NoDup (map st_id (index w)) ->
  exists ok w',
    add_voice_profile_to_vector_db env u name ts w = (Ok ok, w') /\
    NoDup (map st_id (index w')) /\
    ((name = None \/ name = Some "") -> ok = false /\ w' = w) /\
    (ok = false -> index w' = index w) /\
    (ok = true ->
     exists n,
       name = Some n /\
       (exists r, In r (index w') /\ st_id r = (u ++ "_voice_profile")%string) /\
       (forall r, In r (index w') ->
                  st_id r = (u ++ "_voice_profile")%string ->
                  Dict.get (st_metadata r) "voice_profile" = Some n /\
                  Dict.get (st_metadata r) "user_id" = Some u /\
                  Dict.get (st_metadata r) "type" = Some "voice_profile") /\
       (forall r, st_id r <> (u ++ "_voice_profile")%string ->
                  (In r (index w') <-> In r (index w)))).
Proof.
  intros Hnd.
  destruct (add_voice_profile_run env u name ts w)
    as (ok & w' & Hrun & Hnone & Hfail & Hok).
  exists ok, w'. split; [exact Hrun|]. split.
  { destruct ok.
    - destruct (Hok eq_refl) as (n & t & emb & _ & ->). now apply put_nodup.
    - now rewrite (Hfail eq_refl). }
  split; [exact Hnone|]. split; [exact Hfail|].
  intros E. destruct (Hok E) as (n & t & emb & Hname & Hix).
  exists n. split; [exact Hname|]. rewrite Hix. split; [|split].
  - eexists. split; [apply put_in | reflexivity].
  - intros r Hr Hid.
    apply (put_same_id _ _ _ Hnd) in Hr; [|exact Hid]. subst r.
    repeat split.
  - intros r Hr. now apply put_other.
Qed.

(** Witness of X8: two writes in a row for one user. *)
Lemma voice_profile_latest_wins_witness :
  NoDup (map st_id (index Sample.empty_world)) /\
  map (fun r => Dict.get (st_metadata r) "voice_profile")
      (index (snd (add_voice_profile_to_vector_db
                     (Sample.env Sample.terse_model) "u1" (Some "正直青年") None
                     (snd (add_voice_profile_to_vector_db
                             (Sample.env Sample.terse_model) "u1"
                             (Some "柔美女友") None Sample.empty_world)))))
  = [Some "正直青年"] /\
  exists ok w',
    add_voice_profile_to_vector_db (Sample.env Sample.terse_model) "u1"
                                   (Some "柔美女友") None Sample.empty_world
    = (Ok ok, w').
Proof.
  split; [constructor|]. split; [reflexivity|].
  destruct (voice_profile_latest_wins (Sample.env Sample.terse_model) "u1"
              (Some "柔美女友") None Sample.empty_world)
    as (ok & w' & Hrun & _); [constructor|].
  now exists ok, w'.
Defined.
End IndexWrites.

Section FactIds.
Import RAGService PyStr.
Local Open Scope string_scope.
Local Arguments Ascii.eqb : simpl never.

Lemma str_app_inv_head (a b c : string) : a ++ b = a ++ c -> b = c.
Proof. induction a as [|x a IH]; simpl; [auto | intros [= H]; auto]. Qed.

Lemma str_app_inv_tail (s : string) : forall a b, a ++ s = b ++ s -> a = b.
Proof.
  induction a as [|x a IH]; intros [|y b] H; simpl in H.
  - reflexivity.
  - exfalso. apply (f_equal String.length) in H.
    simpl in H. rewrite str_length_app in H. lia.
  - exfalso. apply (f_equal String.length) in H.
    simpl in H. rewrite str_length_app in H. lia.
  - injection H as -> H. f_equal. now apply IH.
Qed.

Lemma contains_underscore_app (a b : string) :
  contains "_" (a ++ String "_" b) = true.
Proof.
  unfold contains. induction a as [|x a IH]; [reflexivity|].
  cbn [append find_at startswith].
  destruct (Ascii.eqb "_" x); cbn [andb]; [reflexivity|].
    rewrite find_at_succ. now destruct (find_at "_" (a ++ String "_" b) 0).
Qed.

(** The id of a fact determines the user and the timestamp as long as
    timestamps hold no underscore. *)
Lemma fact_id_split (u1 : string) : forall u2 t1 t2,
  contains "_" t1 = false -> contains "_" t2 = false ->
  u1 ++ "_" ++ t1 = u2 ++ "_" ++ t2 -> u1 = u2 /\ t1 = t2.
Proof.
  induction u1 as [|x u1 IH]; intros [|y u2] t1 t2 H1 H2 H; simpl in H.
  - injection H as ->. now split.
  - injection H as _ H. subst t1.
    rewrite contains_underscore_app in H1. discriminate.
  - injection H as _ H. subst t2.
    rewrite contains_underscore_app in H2. discriminate.
  - injection H as -> H. destruct (IH u2 t1 t2 H1 H2 H) as [-> ->]. now split.
Qed.

Lemma fact_ids_differ u1 t1 u2 t2 :
  (u1 = u2 /\ t1 <> t2) \/
  (contains "_" t1 = false /\ contains "_" t2 = false /\
   (u1 <> u2 \/ t1 <> t2)) ->
  u1 ++ "_" ++ t1 ++ "_extracted" <> u2 ++ "_" ++ t2 ++ "_extracted".
Proof.
  intros Hcase E.
  assert (E' : u1 ++ "_" ++ t1 = u2 ++ "_" ++ t2).
  { apply (str_app_inv_tail "_extracted").
    now rewrite !str_app_assoc. }
  destruct Hcase as [[-> Hne]|(H1 & H2 & Hne)].
  - apply str_app_inv_head in E'. injection E' as E'. contradiction.
  - destruct (fact_id_split u1 u2 t1 t2 H1 H2 E') as [-> ->]. tauto.
Qed.

(** The text stored for a dictionary of extracted information. *)
Lemma add_extracted_info_success env u info t w w' :
  add_extracted_info_to_vector_db env u info (Some t) w = (Ok true, w') ->
  exists emb text,
    text = match Dict.get info "extracted_info" with
           | Some x => x
           | None => str_of_dict env info
           end /\
    index w' =
    Index.put (mkStored (u ++ "_" ++ t ++ "_extracted") emb
                        (extracted_metadata u t text))
              (index w).
Proof.
  unfold add_extracted_info_to_vector_db, bind, ret, log.
  destruct (Dict.get info "extracted_info") as [x|];
    match goal with
    | |- upsert_extracted ?e ?u0 ?t0 ?i ?w0 = _ -> _ =>
        destruct (upsert_extracted_cases e u0 t0 i w0) as (ok & w1 & -> & Hc)
    end;
    intros [= -> ->]; cbv zeta in Hc;
    destruct (embeddings_create env _ _) as [emb|e];
    [ destruct (upsert_fault env _) as [e|] | | destruct (upsert_fault env _) as [e|] | ];
    try (destruct Hc as (Hc & _); discriminate);
    destruct Hc as (_ & Hix & _); exists emb; eexists; (split; [reflexivity|]);
    exact Hix.
Qed.

(** X9. Facts are not deduplicated when written: when two writes succeed
    one after the other, for one user at different timestamps, or for any
    users and timestamps that differ as pairs while the timestamps hold no
    underscore, they go under different ids and the index holds both
    records afterwards, even when the two texts are the same. *)
Theorem facts_written_apart_are_both_kept env u1 u2 info1 info2 t1 t2 w w1 w2 :
  (u1 = u2 /\ t1 <> t2) \/
  (contains "_" t1 = false /\ contains "_" t2 = false /\
   (u1 <> u2 \/ t1 <> t2)) ->
  add_extracted_info_to_vector_db env u1 info1 (Some t1) w = (Ok true, w1) ->
  add_extracted_info_to_vector_db env u2 info2 (Some t2) w1 = (Ok true, w2) ->
  exists r1 r2,
    In r1 (index w2) /\ In r2 (index w2) /\ st_id r1 <> st_id r2 /\
    st_id r1 = u1 ++ "_" ++ t1 ++ "_extracted" /\
    st_id r2 = u2 ++ "_" ++ t2 ++ "_extracted" /\
    Dict.get (st_metadata r1) "user_id" = Some u1 /\
    Dict.get (st_metadata r2) "user_id" = Some u2 /\
    Dict.get (st_metadata r1) "timestamp" = Some t1 /\
    Dict.get (st_metadata r2) "timestamp" = Some t2.
Proof.
  intros Hcase H1 H2.
  apply add_extracted_info_success in H1, H2.
  destruct H1 as (emb1 & text1 & _ & Hix1).
  destruct H2 as (emb2 & text2 & _ & Hix2).
  pose proof (fact_ids_differ u1 t1 u2 t2 Hcase) as Hne.
  eexists (mkStored _ emb1 (extracted_metadata u1 t1 text1)),
          (mkStored _ emb2 (extracted_metadata u2 t2 text2)).
  rewrite Hix2, Hix1. split.
  { apply put_other; [exact Hne | apply put_in]. }
  split; [apply put_in|]. split; [exact Hne|]. repeat split.
Qed.

(** Witness of X9: the same sentence written twice, one second apart. *)
Lemma facts_written_apart_are_both_kept_witness :
  exists r1 r2,
    st_id r1 <> st_id r2 /\
    st_id r1 = "u1_2025-01-01T00:00:00_extracted" /\
    st_id r2 = "u1_2025-01-01T00:00:01_extracted".
Proof.
  pose (w1 := snd (add_extracted_info_to_vector_db
                     (Sample.env Sample.terse_model) "u1"
                     [("extracted_info", "The user greets.")]
                     (Some "2025-01-01T00:00:00") Sample.empty_world)).
  pose (w2 := snd (add_extracted_info_to_vector_db
                     (Sample.env Sample.terse_model) "u1"
                     [("extracted_info", "The user greets.")]
                     (Some "2025-01-01T00:00:01") w1)).
  assert (H1 : add_extracted_info_to_vector_db
                 (Sample.env Sample.terse_model) "u1"
                 [("extracted_info", "The user greets.")]
                 (Some "2025-01-01T00:00:00") Sample.empty_world
               = (Ok true, w1)) by (vm_compute; reflexivity).
  assert (H2 : add_extracted_info_to_vector_db
                 (Sample.env Sample.terse_model) "u1"
                 [("extracted_info", "The user greets.")]
                 (Some "2025-01-01T00:00:01") w1
               = (Ok true, w2)) by (vm_compute; reflexivity).
  destruct (facts_written_apart_are_both_kept
              (Sample.env Sample.terse_model) "u1" "u1"
              [("extracted_info", "The user greets.")]
              [("extracted_info", "The user greets.")]
              "2025-01-01T00:00:00" "2025-01-01T00:00:01"
              Sample.empty_world w1 w2
              (or_introl (conj eq_refl
                 (proj1 (String.eqb_neq "2025-01-01T00:00:00"
                                        "2025-01-01T00:00:01") eq_refl)))
              H1 H2)
    as (r1 & r2 & _ & _ & Hne & Hid1 & Hid2 & _).
  now exists r1, r2.
Defined.

(** With underscores in a timestamp two users can meet on one id. *)
Example fact_ids_can_collide :
  "a" ++ "_" ++ "b_c" ++ "_extracted" = "a_b" ++ "_" ++ "c" ++ "_extracted".
Proof. reflexivity. Qed.
End FactIds.

(** ** The emotional annotation from the audio branch to the extractor *)

Section AnnotationRoundTrip.
Import RAGService PyStr.
Local Open Scope string_scope.
Local Arguments Ascii.eqb : simpl never.








End AnnotationRoundTrip.

(** ** The audio service and the audio branch *)

Section AudioFacts.
Import AudioService.




End AudioFacts.

Section AudioBranch.
Import RAGService.




End AudioBranch.

(** ** Voice classification and letter case *)

Section CaseFacts.
Import AudioService PyStr.

Lemma lower_char_idem c : lower_char (lower_char c) = lower_char c.
Proof.
  destruct c as [[] [] [] [] [] [] [] []]; reflexivity.
Qed.

Lemma lower_idem s : lower (lower s) = lower s.
Proof.
  induction s as [|c s IH]; simpl; [reflexivity|].
  now rewrite lower_char_idem, IH.
Qed.

Lemma truthy_lower s : truthy (lower s) = truthy s.
Proof. now destruct s. Qed.

(** X13. The classification of an emotion analysis does not depend on
    letter case: two analyses that agree once lower-cased get the same
    voice profile, and an analysis gets the profile of its lower-cased
    form. *)
Theorem classify_ignores_case e1 e2 :
  lower e1 = lower e2 ->
  _classify_voice_profile e1 = _classify_voice_profile e2 /\
  _classify_voice_profile (lower e1) = _classify_voice_profile e1.
Proof.
  intros H. unfold _classify_voice_profile.
  rewrite lower_idem, truthy_lower.
  rewrite <- (truthy_lower e1), <- (truthy_lower e2), H. now split.
Qed.

(** Witness of X13. *)
Lemma classify_ignores_case_witness :
  lower "A Playful, CHARMING tone" = lower "a playful, charming TONE" /\
  _classify_voice_profile "A Playful, CHARMING tone"
  = _classify_voice_profile "a playful, charming TONE".
Proof.
  split; [reflexivity|].
  exact (proj1 (classify_ignores_case "A Playful, CHARMING tone"
                                      "a playful, charming TONE" eq_refl)).
Defined.
End CaseFacts.

(** ** The multi-query retrieval without extra filters *)

Section RetrieveContextFacts.
Import RAGService.

(** The searches of [retrieve_context] leave the index alone and every
    match is a stored record passing the filter. *)
Lemma search_each_hits env top_k filter : forall queries w lists w',
  search_each env queries top_k filter w = (Ok lists, w') ->
  index w' = index w /\
  (length lists = length queries) /\
  Forall (fun l =>
            (length l <= Z.to_nat top_k)%nat /\
            Forall (fun m =>
                      exists r, In r (index w) /\
                        Index.passes filter (st_metadata r) = true /\
                        m_metadata m = st_metadata r) l) lists.
Proof.
  induction queries as [|q queries IH]; intros w lists w' H.
  - injection H as <- <-. repeat split. constructor.
  - cbn [search_each] in H.
    unfold bind at 1, get_embedding, call in H.
    destruct (embeddings_create env (length (trace w)) q) as [emb|e];
      [|discriminate].
    unfold bind at 1, index_query in H. cbn [trace index record] in H.
    destruct (query_fault env _) as [e|]; [discriminate|].
    unfold bind at 1 in H.
    destruct (search_each env queries top_k filter _) as [[rest|e] w2] eqn:E;
      [|discriminate].
    unfold ret in H. injection H as <- <-.
    destruct (IH _ _ _ E) as (Hix & Hlen & Hall). cbn [index record] in Hix, Hall.
    split; [exact Hix|]. split; [simpl; now rewrite Hlen|].
    constructor; [|exact Hall]. split; [apply search_length|].
    rewrite Forall_forall. intros m Hm. apply search_hit in Hm.
    destruct Hm as (r & Hr & Hp & ->). now exists r.
Qed.

Lemma count_parents_values (P : option string -> Prop) : forall fused counts texts,
  (forall m, In m fused -> P (Dict.get (m_metadata m) "parent_text")) ->
  (forall pid x, Dict.get texts pid = Some x -> P x) ->
  forall pid x,
    Dict.get (snd (count_parents fused counts texts)) pid = Some x -> P x.
Proof.
  induction fused as [|m fused IH]; intros counts texts Hf Ht pid x; simpl.
  - apply Ht.
  - destruct (Dict.get (m_metadata m) "parent_id") as [parent_id|] eqn:Ep.
    + destruct (PyStr.truthy parent_id).
      * apply IH; [intros m' Hm'; apply Hf; now right|].
        intros pid' x'. destruct (String.eqb_spec parent_id pid') as [<-|Hne].
        -- rewrite dict_get_set_same. intros [= <-]. apply Hf. now left.
        -- rewrite dict_get_set_other by exact Hne. apply Ht.
      * apply IH; [intros m' Hm'; apply Hf; now right | exact Ht].
    + apply IH; [intros m' Hm'; apply Hf; now right | exact Ht].
Qed.

Lemma first_frequent_parent_value top_k texts : forall counts x,
  first_frequent_parent top_k counts texts = Some x ->
  exists pid, Dict.get texts pid = Some x.
Proof.
  induction counts as [|[pid c] counts IH]; simpl; intros x H; [discriminate|].
  destruct ((top_k / 2 <=? c) && Dict.mem texts pid); [now exists pid | now apply IH].
Qed.

Lemma texts_of_ok : forall fused l,
  texts_of fused = Ok l ->
  length l = length fused /\
  Forall (fun x => exists m t, In m fused /\ x = Some t /\
                               Dict.get (m_metadata m) "text" = Some t) l.
Proof.
  induction fused as [|m fused IH]; simpl; intros l H.
  - injection H as <-. now split.
  - destruct (Dict.get (m_metadata m) "text") as [t|] eqn:Et; [|discriminate].
    destruct (texts_of fused) as [l'|]; [|discriminate].
    injection H as <-. destruct (IH l' eq_refl) as [Hlen Hall].
    split; [simpl; now rewrite Hlen|]. constructor.
    + exists m, t. auto.
    + eapply Forall_impl; [|exact Hall].
      intros x (m' & t' & Hm' & Hx & Ht'). exists m', t'. auto.
Qed.

(** X14. Called without extra filters, the multi-query retrieval never
    writes to the index and never hands out another user's text: whenever
    it returns, for a positive [top_k], it returns at most [top_k]
    entries, and each entry is the [text], or the [parent_text], of a
    stored record whose metadata carries the caller's user id. *)
Theorem retrieve_context_scoped_by_default env q u top_k n w texts w' :
  0 < top_k ->
  retrieve_context env q u top_k None n w = (Ok texts, w') ->
  index w' = index w /\
  (length texts <= Z.to_nat top_k)%nat /\
  Forall (fun x =>
            exists r, In r (index w) /\
              Dict.get (st_metadata r) "user_id" = Some u /\
              (x = Dict.get (st_metadata r) "parent_text" \/
               (x <> None /\ x = Dict.get (st_metadata r) "text")))
         texts.
Proof.
  intros Hk H. unfold retrieve_context in H.
  unfold bind at 1, _generate_multiqueries, bind at 1, chat, call in H.
  destruct (chat_completion env (length (trace w)) _) as [reply|e];
    [|discriminate].
  unfold ret at 1 in H. unfold bind at 1 in H.
  destruct (search_each env _ top_k _ _) as [[lists|e] w1] eqn:Es;
    [|discriminate].
  destruct (search_each_hits _ _ _ _ _ _ _ Es) as (Hix & _ & Hall).
  cbn [index record] in Hix, Hall.
  unfold bind at 1, lift in H.
  destruct (rrf_run lists top_k Hk)
    as (scores & full & _ & Hrun & _ & _ & _ & _ & Hfrom).
  rewrite Hrun in H.
  set (fused := firstn (Z.to_nat top_k) full) in *.
  assert (Hfused : forall m, In m fused ->
            exists r, In r (index w) /\
              Dict.get (st_metadata r) "user_id" = Some u /\
              m_metadata m = st_metadata r).
  { intros m Hm. apply in_firstn in Hm. apply Hfrom in Hm.
    apply in_concat in Hm. destruct Hm as (l & Hl & Hm).
    rewrite Forall_forall in Hall. destruct (Hall l Hl) as [_ Hl'].
    rewrite Forall_forall in Hl'. destruct (Hl' m Hm) as (r & Hr & Hp & Hmd).
    exists r. split; [exact Hr|]. split; [|exact Hmd].
    now apply (passes_get _ _ "user_id" u Hp). }
  destruct (count_parents fused [] []) as [counts ptexts] eqn:Ec.
  destruct (first_frequent_parent top_k counts ptexts) as [pt|] eqn:Ef.
  - unfold ret in H. injection H as <- <-.
    split; [exact Hix|]. split; [simpl; lia|].
    constructor; [|constructor].
    apply first_frequent_parent_value in Ef. destruct Ef as (pid & Hpid).
    assert (Hv : exists m, In m fused /\
                           pt = Dict.get (m_metadata m) "parent_text").
    { apply (count_parents_values
               (fun x => exists m, In m fused /\
                                   x = Dict.get (m_metadata m) "parent_text")
               fused [] []) with pid.
      - intros m Hm. now exists m.
      - intros ? ? [=].
      - now rewrite Ec. }
    destruct Hv as (m & Hm & ->).
    destruct (Hfused m Hm) as (r & Hr & Hu & Hmd).
    exists r. rewrite Hmd. auto.
  - unfold lift in H. destruct (texts_of fused) as [l|e] eqn:Et; [|discriminate].
    injection H as <- <-. destruct (texts_of_ok _ _ Et) as [Hlen Hl].
    split; [exact Hix|]. split.
    { rewrite Hlen. apply firstn_le_length. }
    eapply Forall_impl; [|exact Hl].
    intros x (m & t & Hm & -> & Ht).
    destruct (Hfused m Hm) as (r & Hr & Hu & Hmd).
    exists r. split; [exact Hr|]. split; [exact Hu|]. right.
    split; [discriminate|]. now rewrite <- Hmd.
Qed.

(** Witness of X14: the call made for "alice" against the index that holds
    a fact of "bob" returns nothing. *)
Lemma retrieve_context_scoped_by_default_witness :
  retrieve_context (Sample.env Sample.terse_model) "what is planned?" "alice"
                   5 None 3 Sample.bob_world
  = (Ok [], snd (retrieve_context (Sample.env Sample.terse_model)
                   "what is planned?" "alice" 5 None 3 Sample.bob_world)) /\
  index (snd (retrieve_context (Sample.env Sample.terse_model)
                "what is planned?" "alice" 5 None 3 Sample.bob_world))
  = index Sample.bob_world.
Proof.
  assert (H : retrieve_context (Sample.env Sample.terse_model)
                "what is planned?" "alice" 5 None 3 Sample.bob_world
              = (Ok [], snd (retrieve_context (Sample.env Sample.terse_model)
                   "what is planned?" "alice" 5 None 3 Sample.bob_world)))
    by (vm_compute; reflexivity).
  split; [exact H|].
  exact (proj1 (retrieve_context_scoped_by_default
                  (Sample.env Sample.terse_model) "what is planned?" "alice"
                  5 3 Sample.bob_world _ _ eq_refl H)).
Defined.
End RetrieveContextFacts.

(** ** The conversation memory *)

Section MemoryFacts.
Import MemoryService.

Lemma del_get_same {V} (d : Dict.t V) k :
  NoDup (Dict.keys d) -> Dict.get (del d k) k = None.
Proof.
  induction d as [|[k' v] d IH]; simpl; intros Hnd; [reflexivity|].
  inversion Hnd as [|? ? Hnotin Hnd']; subst.
  destruct (String.eqb k' k) eqn:E.
  - apply String.eqb_eq in E. subst k'.
    destruct (Dict.get d k) eqn:G; [|reflexivity].
    exfalso. apply Hnotin. apply dict_in_keys_get. eauto.
  - simpl. rewrite E. auto.
Qed.

Lemma del_get_other {V} (d : Dict.t V) k k' :
  k <> k' -> Dict.get (del d k) k' = Dict.get d k'.
Proof.
  intros Hne. induction d as [|[k0 v] d IH]; simpl; [reflexivity|].
  destruct (String.eqb k0 k) eqn:E.
  - apply String.eqb_eq in E. subst k0.
    destruct (String.eqb k k') eqn:E'; [|reflexivity].
    apply String.eqb_eq in E'. contradiction.
  - simpl. now rewrite IH.
Qed.

Lemma del_keys_nodup {V} (d : Dict.t V) k :
  NoDup (Dict.keys d) -> NoDup (Dict.keys (del d k)).
Proof.
  induction d as [|[k' v] d IH]; simpl; intros Hnd; [constructor|].
  inversion Hnd as [|? ? Hnotin Hnd']; subst.
  destruct (String.eqb k' k); [exact Hnd'|].
  simpl. constructor; [|auto].
  intros Hin. apply Hnotin.
  clear - Hin. induction d as [|[k0 v0] d IH]; simpl in *; [contradiction|].
  destruct (String.eqb k0 k); simpl in *; tauto.
Qed.

(** What a call returns, and what it leaves for its user, depends on the
    service only through what the service held for that user. *)
Lemma process_conversation_agree st1 st2 now u msgs :
  Dict.get (user_profiles st1) u = Dict.get (user_profiles st2) u ->
  Dict.get (conversation_histories st1) u =
  Dict.get (conversation_histories st2) u ->
  fst (process_conversation st1 now u msgs) =
  fst (process_conversation st2 now u msgs) /\
  Dict.get (user_profiles (snd (process_conversation st1 now u msgs))) u =
  Dict.get (user_profiles (snd (process_conversation st2 now u msgs))) u /\
  Dict.get (conversation_histories (snd (process_conversation st1 now u msgs))) u =
  Dict.get (conversation_histories (snd (process_conversation st2 now u msgs))) u.
Proof.
  intros Hp Hh. unfold process_conversation. cbn [fst snd user_profiles conversation_histories].
  rewrite Hp, Hh, !dict_get_set_same. auto.
Qed.

Lemma process_conversation_other st now u msgs v :
  u <> v ->
  Dict.get (user_profiles (snd (process_conversation st now u msgs))) v =
  Dict.get (user_profiles st) v /\
  Dict.get (conversation_histories (snd (process_conversation st now u msgs))) v =
  Dict.get (conversation_histories st) v.
Proof.
  intros Hne. unfold process_conversation.
  cbn [fst snd user_profiles conversation_histories].
  now rewrite !dict_get_set_other.
Qed.

Lemma process_conversation_same st now u msgs :
  history_of (snd (process_conversation st now u msgs)) u =
  history_of st u ++ msgs /\
  interactions_of (snd (process_conversation st now u msgs)) u =
  interactions_of st u + 1 /\
  Dict.mem (user_profiles (snd (process_conversation st now u msgs))) u = true /\
  Dict.mem (conversation_histories (snd (process_conversation st now u msgs))) u = true.
Proof.
  unfold history_of, interactions_of, Dict.mem, process_conversation.
  cbn [fst snd user_profiles conversation_histories].
  rewrite !dict_get_set_same. cbn [total_interactions].
  destruct (Dict.get (user_profiles st) u); auto.
Qed.

Lemma process_conversation_nodup st now u msgs :
  NoDup (Dict.keys (user_profiles st)) ->
  NoDup (Dict.keys (conversation_histories st)) ->
  NoDup (Dict.keys (user_profiles (snd (process_conversation st now u msgs)))) /\
  NoDup (Dict.keys (conversation_histories (snd (process_conversation st now u msgs)))).
Proof.
  intros H1 H2. unfold process_conversation.
  cbn [fst snd user_profiles conversation_histories].
  split; now apply dict_nodup_keys_set.
Qed.

Lemma run_cons st c calls :
  run st (c :: calls) =
  run (snd (process_conversation st (fst (fst c)) (snd (fst c)) (snd c))) calls.
Proof. reflexivity. Qed.

Lemma run_nodup calls : forall st,
  NoDup (Dict.keys (user_profiles st)) ->
  NoDup (Dict.keys (conversation_histories st)) ->
  NoDup (Dict.keys (user_profiles (run st calls))) /\
  NoDup (Dict.keys (conversation_histories (run st calls))).
Proof.
  induction calls as [|c calls IH]; intros st H1 H2; [now split|].
  rewrite run_cons.
  destruct (process_conversation_nodup st (fst (fst c)) (snd (fst c)) (snd c) H1 H2).
  now apply IH.
Qed.

Lemma run_accumulates calls : forall st u,
  history_of (run st calls) u = history_of st u ++ messages_of u calls /\
  interactions_of (run st calls) u =
  interactions_of st u + Z.of_nat (length (calls_of u calls)) /\
  Dict.mem (user_profiles (run st calls)) u =
  (Dict.mem (user_profiles st) u
   || negb (Nat.eqb (length (calls_of u calls)) 0))%bool /\
  Dict.mem (conversation_histories (run st calls)) u =
  (Dict.mem (conversation_histories st) u
   || negb (Nat.eqb (length (calls_of u calls)) 0))%bool.
Proof.
  induction calls as [|[[now v] msgs] calls IH]; intros st u.
  - unfold messages_of. simpl. rewrite app_nil_r, Z.add_0_r, !orb_false_r. auto.
  - rewrite run_cons. cbn [fst snd].
    destruct (IH (snd (process_conversation st now v msgs)) u)
      as (Hh & Hi & Hmp & Hmh).
    rewrite Hh, Hi, Hmp, Hmh. clear Hh Hi Hmp Hmh IH.
    unfold messages_of, calls_of. cbn [List.filter fst snd].
    destruct (String.eqb v u) eqn:E.
    + apply String.eqb_eq in E. subst v.
      destruct (process_conversation_same st now u msgs) as (Hh & Hi & Hmp & Hmh).
      rewrite Hh, Hi, Hmp, Hmh. cbn [flat_map length snd Nat.eqb negb].
      rewrite <- app_assoc, !orb_true_r.
      repeat split; lia.
    + apply String.eqb_neq in E.
      destruct (process_conversation_other st now v msgs u E) as [Hp Hc].
      unfold history_of, interactions_of, Dict.mem. rewrite Hp, Hc. auto.
Qed.

(** X15.  Starting from an empty service, after any sequence of calls of
    [process_conversation] the service has counted, for each user, the calls
    made for that user, and holds the messages of those calls in order: the
    summary reads "User has n total interactions" with n the number of the
    user's calls, and a user never seen has no history and an empty
    summary. *)
Theorem memory_accumulates_per_user (calls : list Call) (u : string) :
  let st := run init calls in
  let n := length (calls_of u calls) in
  get_user_memory_summary st u =
    (if Nat.eqb n 0 then ""
     else "User has " ++ PyStr.str_of_int (Z.of_nat n)
          ++ " total interactions")%string /\
  Dict.get (conversation_histories st) u =
    (if Nat.eqb n 0 then None else Some (messages_of u calls)).
Proof.
  intros st n.
  destruct (run_accumulates calls init u) as (Hh & Hi & Hmp & Hmh).
  fold st in Hh, Hi, Hmp, Hmh. fold n in Hi, Hmp, Hmh.
  unfold history_of, interactions_of, Dict.mem in *.
  unfold get_user_memory_summary, summary_of. simpl in Hh, Hi, Hmp, Hmh.
  destruct (Nat.eqb n 0) eqn:En; simpl in Hmp, Hmh.
  - destruct (Dict.get (user_profiles st) u); [discriminate|].
    destruct (Dict.get (conversation_histories st) u); [discriminate|]. auto.
  - destruct (Dict.get (user_profiles st) u) as [p|]; [|discriminate].
    destruct (Dict.get (conversation_histories st) u) as [h|]; [|discriminate].
    rewrite Hi, Hh. auto.
Qed.

Lemma run_agree calls u : forall st1 st2,
  Dict.get (user_profiles st1) u = Dict.get (user_profiles st2) u ->
  Dict.get (conversation_histories st1) u =
  Dict.get (conversation_histories st2) u ->
  Dict.get (user_profiles (run st1 calls)) u =
  Dict.get (user_profiles (run st2 (calls_of u calls))) u /\
  Dict.get (conversation_histories (run st1 calls)) u =
  Dict.get (conversation_histories (run st2 (calls_of u calls))) u.
Proof.
  induction calls as [|[[now v] msgs] calls IH]; intros st1 st2 Hp Hh.
  - now split.
  - unfold calls_of. cbn [List.filter fst snd]. fold (calls_of u calls).
    rewrite run_cons. cbn [fst snd].
    destruct (String.eqb v u) eqn:E.
    + apply String.eqb_eq in E. subst v. rewrite run_cons. cbn [fst snd].
      destruct (process_conversation_agree st1 st2 now u msgs Hp Hh) as (_ & Hp' & Hh').
      now apply IH.
    + apply String.eqb_neq in E.
      destruct (process_conversation_other st1 now v msgs u E) as [Hp' Hh'].
      apply IH; congruence.
Qed.

(** X16.  The memory of one user is untouched by the calls made for the
    others: after any sequence of calls the user's profile (counter and time
    of last interaction included) and stored history are what they would be
    had only that user's calls been made, and so is everything a further
    call for that user returns. *)
Theorem memory_is_per_user (calls : list Call) (u now : string)
        (msgs : list Message) :
  let st := run init calls in
  let st_alone := run init (calls_of u calls) in
  get_user_profile st u = get_user_profile st_alone u /\
  Dict.get (conversation_histories st) u =
  Dict.get (conversation_histories st_alone) u /\
  fst (process_conversation st now u msgs) =
  fst (process_conversation st_alone now u msgs).
Proof.
  intros st st_alone.
  destruct (run_agree calls u init init eq_refl eq_refl) as [Hp Hh].
  fold st in Hp, Hh. fold st_alone in Hp, Hh.
  repeat split; [exact Hp | exact Hh |].
  apply (process_conversation_agree st st_alone now u msgs Hp Hh).
Qed.

(** X17.  The context returned by [process_conversation] is made of at
    most five entries [role: content], each one taken from a message with a
    string content among the last ten messages stored for the user; a
    message whose content is not a string is never quoted. *)
Theorem memory_context_window (st : State) (now u : string)
        (msgs : list Message) :
  exists parts,
    context (fst (process_conversation st now u msgs)) =
    PyStr.join PyStr.nl parts /\
    (length parts <= 5)%nat /\
    Forall
      (fun part =>
         exists m s,
           In m (PyStr.last_n 10 (history_of st u ++ msgs)) /\
           content m = Str s /\
           part = (role m ++ ": " ++ s)%string)
      parts.
Proof.
  unfold process_conversation. cbn [fst context].
  fold (history_of st u).
  set (recent := PyStr.last_n 10 (history_of st u ++ msgs)).
  exists (PyStr.last_n 5 (context_parts recent)).
  split; [reflexivity|]. split.
  - unfold PyStr.last_n. rewrite length_skipn. lia.
  - apply Forall_forall. intros part Hin.
    unfold PyStr.last_n in Hin. apply in_skipn in Hin.
    unfold context_parts in Hin. apply in_flat_map in Hin.
    destruct Hin as (m & Hm & Hpart).
    destruct (content m) as [s| |] eqn:Ec; simpl in Hpart; try contradiction.
    destruct Hpart as [<-|[]]. exists m, s. auto.
Qed.

(** X18.  [clear_user_memory] forgets a user completely and nobody else:
    in a service reached from the empty one, the cleared user has no
    profile, no history and an empty summary, every other user keeps
    theirs, and the next call for the cleared user returns what it would
    return on a fresh service. *)
Theorem clear_user_memory_forgets (calls : list Call) (u v now : string)
        (msgs : list Message) :
  let st := clear_user_memory (run init calls) u in
  get_user_profile st v =
    (if String.eqb u v then None else get_user_profile (run init calls) v) /\
  Dict.get (conversation_histories st) v =
    (if String.eqb u v then None
     else Dict.get (conversation_histories (run init calls)) v) /\
  get_user_memory_summary st u = "" /\
  fst (process_conversation st now u msgs) =
  fst (process_conversation init now u msgs).
Proof.
  intros st.
  destruct (run_nodup calls init) as [Hnp Hnh]; [constructor | constructor |].
  assert (Hp : forall w, Dict.get (user_profiles st) w =
               if String.eqb u w then None
               else Dict.get (user_profiles (run init calls)) w).
  { intros w. unfold st, clear_user_memory. cbn [user_profiles].
    destruct (String.eqb u w) eqn:E.
    - apply String.eqb_eq in E. subst w.
      unfold Dict.mem.
      destruct (Dict.get (user_profiles (run init calls)) u) eqn:G;
        [now apply del_get_same | exact G].
    - apply String.eqb_neq in E.
      destruct (Dict.mem (user_profiles (run init calls)) u);
        [now apply del_get_other | reflexivity]. }
  assert (Hh : forall w, Dict.get (conversation_histories st) w =
               if String.eqb u w then None
               else Dict.get (conversation_histories (run init calls)) w).
  { intros w. unfold st, clear_user_memory. cbn [conversation_histories].
    destruct (String.eqb u w) eqn:E.
    - apply String.eqb_eq in E. subst w.
      unfold Dict.mem.
      destruct (Dict.get (conversation_histories (run init calls)) u) eqn:G;
        [now apply del_get_same | exact G].
    - apply String.eqb_neq in E.
      destruct (Dict.mem (conversation_histories (run init calls)) u);
        [now apply del_get_other | reflexivity]. }
  split; [apply Hp|]. split; [apply Hh|].
  pose proof (Hp u) as Hpu. pose proof (Hh u) as Hhu.
  rewrite String.eqb_refl in Hpu, Hhu.
  split.
  - unfold get_user_memory_summary. now rewrite Hpu.
  - apply (process_conversation_agree st init now u msgs); assumption.
Qed.
End MemoryFacts.

(** ** The messages of a chat request *)

Section ParseFacts.
Import ChatUtils.

Lemma parse_part_history acc part :
  history (parse_part acc part) = history acc.
Proof.
  destruct part as [t|u|u|]; unfold parse_part; try reflexivity.
  - destruct (PyStr.startswith "data:image" (get_or_empty u)); [reflexivity|].
    now destruct (is_s3_url (get_or_empty u)).
  - destruct (PyStr.startswith "data:audio" (get_or_empty u)); [reflexivity|].
    now destruct (is_s3_url (get_or_empty u)).
Qed.

Lemma parse_parts_history parts : forall acc,
  history (fold_left parse_part parts acc) = history acc.
Proof.
  induction parts as [|part parts IH]; intros acc; [reflexivity|].
  simpl. now rewrite IH, parse_part_history.
Qed.

Lemma parse_message_history acc msg :
  history (parse_message acc msg) =
  history acc ++ (if is_assistant msg then [history_entry msg] else []).
Proof.
  unfold parse_message, is_assistant.
  destruct (role_is "assistant" msg); [reflexivity|].
  rewrite app_nil_r.
  destruct (role_is "user" msg); [|reflexivity]. cbn [negb].
  destruct (get_content msg); try reflexivity.
  apply parse_parts_history.
Qed.

Lemma parse_messages_history_from msgs : forall acc,
  history (fold_left parse_message msgs acc) =
  history acc ++ map history_entry (List.filter is_assistant msgs).
Proof.
  induction msgs as [|msg msgs IH]; intros acc; simpl.
  - now rewrite app_nil_r.
  - rewrite IH, parse_message_history.
    destruct (is_assistant msg); simpl; now rewrite <- app_assoc.
Qed.

Lemma parse_part_consistent acc part :
  consistent acc = true -> consistent (parse_part acc part) = true.
Proof.
  unfold consistent. intros H.
  apply andb_true_iff in H as [H12 H3]. apply andb_true_iff in H12 as [H1 H2].
  destruct part as [t|u|u|]; unfold parse_part.
  - cbn [image_content audio_content input_type]. now rewrite H1, H2, H3.
  - destruct (PyStr.startswith "data:image" (get_or_empty u)).
    + cbn [image_content audio_content input_type]. rewrite H2. reflexivity.
    + destruct (is_s3_url (get_or_empty u)).
      * cbn [image_content audio_content input_type]. rewrite H2. reflexivity.
      * now rewrite H1, H2, H3.
  - destruct (PyStr.startswith "data:audio" (get_or_empty u)).
    + cbn [image_content audio_content input_type]. rewrite H1. reflexivity.
    + destruct (is_s3_url (get_or_empty u)).
      * cbn [image_content audio_content input_type]. rewrite H1. reflexivity.
      * now rewrite H1, H2, H3.
  - now rewrite H1, H2, H3.
Qed.

Lemma parse_parts_consistent parts : forall acc,
  consistent acc = true -> consistent (fold_left parse_part parts acc) = true.
Proof.
  induction parts as [|part parts IH]; intros acc H; [exact H|].
  simpl. apply IH. now apply parse_part_consistent.
Qed.

Lemma parse_message_consistent acc msg :
  consistent acc = true -> consistent (parse_message acc msg) = true.
Proof.
  intros H. unfold parse_message.
  destruct (role_is "assistant" msg); [exact H|].
  destruct (role_is "user" msg); [|exact H]. cbn [negb].
  destruct (get_content msg); try exact H.
  now apply parse_parts_consistent.
Qed.

Lemma parse_messages_consistent_from msgs : forall acc,
  consistent acc = true ->
  consistent (fold_left parse_message msgs acc) = true.
Proof.
  induction msgs as [|msg msgs IH]; intros acc H; [exact H|].
  simpl. apply IH. now apply parse_message_consistent.
Qed.

(** X19.  What [parse_messages] returns is coherent: the history holds
    the assistant messages of the request, and only those, in order; the
    input type is "text" exactly when no image and no audio was found,
    "image" or "audio" only when such a content is returned; a returned
    image is tagged image_base64 or image_url and a returned audio
    audio_base64 or audio_url. *)
Theorem parse_messages_invariants (msgs : list RawMessage) :
  let p := parse_messages msgs in
  history p = map history_entry (List.filter is_assistant msgs) /\
  (input_type p = "text"%string /\ image_content p = None
                                /\ audio_content p = None
   \/ input_type p = "image"%string /\ present (image_content p) = true
   \/ input_type p = "audio"%string /\ present (audio_content p) = true) /\
  tagged ["image_base64"%string; "image_url"%string] (image_content p) = true /\
  tagged ["audio_base64"%string; "audio_url"%string] (audio_content p) = true.
Proof.
  intros p. split.
  - unfold p, parse_messages. now rewrite parse_messages_history_from.
  - assert (H : consistent p = true)
      by (apply parse_messages_consistent_from; reflexivity).
    unfold consistent in H.
    apply andb_true_iff in H as [H12 H3]. apply andb_true_iff in H12 as [H1 H2].
    split; [|now split].
    destruct (String.eqb (input_type p) "text") eqn:Et.
    + apply String.eqb_eq in Et. left.
      apply andb_true_iff in H3 as [Hi Ha].
      destruct (image_content p); [discriminate|].
      destruct (audio_content p); [discriminate|]. auto.
    + destruct (String.eqb (input_type p) "image") eqn:Ei.
      * apply String.eqb_eq in Ei. right. left. auto.
      * destruct (String.eqb (input_type p) "audio") eqn:Ea; [|discriminate].
        apply String.eqb_eq in Ea. right. right. auto.
Qed.

Lemma parse_messages_app pre post :
  parse_messages (pre ++ post) =
  fold_left parse_message post (parse_messages pre).
Proof. unfold parse_messages. apply fold_left_app. Qed.

Lemma url_data_image b64 :
  url_data ("data:image/jpeg;base64," ++ b64)%string = b64.
Proof. reflexivity. Qed.

Lemma url_data_audio b64 :
  url_data ("data:audio/wav;base64," ++ b64)%string = b64.
Proof. reflexivity. Qed.

(** X20.  An image message built by [format_image_message] is read back
    by [parse_messages]: sent as the last user message it yields the prompt
    as last user message, the input type "image" and the very base64 string
    that was formatted, tagged image_base64, whatever that string is; the
    history and the audio found before are kept. *)
Theorem image_message_round_trip (pre : list RawMessage)
        (base64_str prompt : string) :
  let p := parse_messages pre in
  parse_messages
    (pre ++ [mkRaw (Some "user"%string)
                   (Some (BodyParts
                            (MediaProcessingService.format_image_message
                               base64_str prompt)))]) =
  mkParsed (Some prompt) (history p) "image"
           (Some (mkMedia "image_base64" base64_str)) (audio_content p).
Proof.
  intros p. rewrite parse_messages_app. fold p.
  cbn [fold_left]. unfold parse_message. cbn [role_is raw_role].
  change (String.eqb "user" "assistant") with false.
  change (String.eqb "user" "user") with true. cbn [negb].
  cbn [get_content raw_content MediaProcessingService.format_image_message
       fold_left].
  unfold parse_part at 2. cbn [get_or_empty].
  change (PyStr.startswith "data:image"
            ("data:image/jpeg;base64," ++ base64_str)%string) with true.
  cbn iota. rewrite url_data_image. reflexivity.
Qed.

(** X21.  The same for an audio message built by [format_audio_message]:
    [parse_messages] returns the prompt, the input type "audio" and the
    formatted base64 string tagged audio_base64, and keeps the history and
    the image found before. *)
Theorem audio_message_round_trip (pre : list RawMessage)
        (base64_str prompt : string) :
  let p := parse_messages pre in
  parse_messages
    (pre ++ [mkRaw (Some "user"%string)
                   (Some (BodyParts
                            (MediaProcessingService.format_audio_message
                               base64_str prompt)))]) =
  mkParsed (Some prompt) (history p) "audio" (image_content p)
           (Some (mkMedia "audio_base64" base64_str)).
Proof.
  intros p. rewrite parse_messages_app. fold p.
  cbn [fold_left]. unfold parse_message. cbn [role_is raw_role].
  change (String.eqb "user" "assistant") with false.
  change (String.eqb "user" "user") with true. cbn [negb].
  cbn [get_content raw_content MediaProcessingService.format_audio_message
       fold_left].
  unfold parse_part at 2. cbn [get_or_empty].
  change (PyStr.startswith "data:audio"
            ("data:audio/wav;base64," ++ base64_str)%string) with true.
  cbn iota. rewrite url_data_audio. reflexivity.
Qed.

Lemma parse_part_keeps_media acc part :
  media_free_part part = true ->
  input_type (parse_part acc part) = input_type acc /\
  image_content (parse_part acc part) = image_content acc /\
  audio_content (parse_part acc part) = audio_content acc.
Proof. destruct part; simpl; intros H; try discriminate; auto. Qed.

Lemma parse_parts_keep_media parts : forall acc,
  forallb media_free_part parts = true ->
  input_type (fold_left parse_part parts acc) = input_type acc /\
  image_content (fold_left parse_part parts acc) = image_content acc /\
  audio_content (fold_left parse_part parts acc) = audio_content acc.
Proof.
  induction parts as [|part parts IH]; intros acc H; [auto|].
  simpl in H. apply andb_true_iff in H as [Hp Hps].
  simpl. destruct (IH (parse_part acc part) Hps) as (H1 & H2 & H3).
  destruct (parse_part_keeps_media acc part Hp) as (G1 & G2 & G3).
  repeat split; congruence.
Qed.

Lemma parse_message_keeps_media acc msg :
  media_free msg = true ->
  input_type (parse_message acc msg) = input_type acc /\
  image_content (parse_message acc msg) = image_content acc /\
  audio_content (parse_message acc msg) = audio_content acc.
Proof.
  unfold media_free, parse_message. intros H.
  destruct (role_is "assistant" msg); [auto|].
  destruct (role_is "user" msg); cbn [negb] in *; [|auto].
  destruct (get_content msg); auto.
  now apply parse_parts_keep_media.
Qed.

Lemma parse_messages_keep_media post : forall acc,
  forallb media_free post = true ->
  input_type (fold_left parse_message post acc) = input_type acc /\
  image_content (fold_left parse_message post acc) = image_content acc /\
  audio_content (fold_left parse_message post acc) = audio_content acc.
Proof.
  induction post as [|msg post IH]; intros acc H; [auto|].
  simpl in H. apply andb_true_iff in H as [Hm Hpost].
  simpl. destruct (IH (parse_message acc msg) Hpost) as (H1 & H2 & H3).
  destruct (parse_message_keeps_media acc msg Hm) as (G1 & G2 & G3).
  repeat split; congruence.
Qed.

(** X22.  An image or audio outlives the message that carried it: when
    the messages that follow bring no image or audio item of their own, the
    input type, the image and the audio returned by [parse_messages] are
    still those of the earlier messages, although the last user message is
    plain text. *)
Theorem media_outlive_their_message (pre post : list RawMessage) :
  forallb media_free post = true ->
  input_type (parse_messages (pre ++ post)) = input_type (parse_messages pre) /\
  image_content (parse_messages (pre ++ post)) =
  image_content (parse_messages pre) /\
  audio_content (parse_messages (pre ++ post)) =
  audio_content (parse_messages pre).
Proof.
  intros H. rewrite parse_messages_app. now apply parse_messages_keep_media.
Qed.

Lemma media_outlive_their_message_witness :
  let pre := [mkRaw (Some "user"%string)
                    (Some (BodyParts
                             (MediaProcessingService.format_image_message
                                "aGVsbG8=" "What is this?")))] in
  let post := [mkRaw (Some "assistant"%string) (Some (BodyStr "A greeting."));
               mkRaw (Some "user"%string) (Some (BodyStr "Thanks!"))] in
  last_user_message (parse_messages (pre ++ post)) = Some "Thanks!"%string /\
  input_type (parse_messages (pre ++ post)) = "image"%string /\
  image_content (parse_messages (pre ++ post)) =
  Some (mkMedia "image_base64" "aGVsbG8=").
Proof.
  intros pre post.
  destruct (media_outlive_their_message pre post eq_refl) as (H1 & H2 & _).
  split; [reflexivity|]. split.
  - rewrite H1. reflexivity.
  - rewrite H2. reflexivity.
Defined.
End ParseFacts.

(** ** The messages sent to the chat endpoint *)

Section ConvertFacts.
Import ChatUtils QwenChatService.






Lemma text_of_items_from items : forall text_content t,
  fold_left text_of_item (items ++ [TextPart t]) text_content = get_or_empty t.
Proof.
  intros text_content t. now rewrite fold_left_app.
Qed.

(** X24.  In a list content the last text item wins: the text that
    [_convert_to_messages] sends for a content ending in a text item is that
    item's text alone, so the messages built by [format_image_message] and
    [format_audio_message], which put the media item first, reach the
    endpoint as the bare prompt, without any mention of the image or
    audio. *)
Theorem formatted_media_reach_endpoint_as_prompt (base64_str prompt : string)
        (items : list Part) (text : option string) :
  convert_content (BodyParts (items ++ [TextPart text])) =
  BodyStr (get_or_empty text) /\
  _convert_to_messages
    [mkRaw (Some "user"%string)
           (Some (BodyParts
                    (MediaProcessingService.format_image_message
                       base64_str prompt)))] =
  Ok [system_message; mkRaw (Some "user"%string) (Some (BodyStr prompt))] /\
  _convert_to_messages
    [mkRaw (Some "user"%string)
           (Some (BodyParts
                    (MediaProcessingService.format_audio_message
                       base64_str prompt)))] =
  Ok [system_message; mkRaw (Some "user"%string) (Some (BodyStr prompt))].
Proof.
  split; [|split].
  - unfold convert_content, text_of_items. now rewrite text_of_items_from.
  - reflexivity.
  - reflexivity.
Qed.



End ConvertFacts.

(** ** The response helpers *)

Section ResponseFacts.
Import ChatUtils.

(** X26.  The token counts reported by [build_openai_response] need not
    add up: the total is the sum of the prompt and completion counts or one
    more, and it is one more for instance for lengths 2 and 2. *)
Theorem usage_total_is_sum_or_one_more (len_messages len_reply : Z) :
  let u := usage len_messages len_reply in
  (total_tokens u = prompt_tokens u + completion_tokens u \/
   total_tokens u = prompt_tokens u + completion_tokens u + 1) /\
  total_tokens (usage 2 2) =
  prompt_tokens (usage 2 2) + completion_tokens (usage 2 2) + 1.
Proof.
  cbv zeta. unfold usage. cbn [total_tokens prompt_tokens completion_tokens].
  split; [|reflexivity].
  pose proof (Z.div_mod len_messages 4 ltac:(lia)).
  pose proof (Z.div_mod len_reply 4 ltac:(lia)).
  pose proof (Z.div_mod (len_messages + len_reply) 4 ltac:(lia)).
  pose proof (Z.mod_pos_bound len_messages 4 ltac:(lia)).
  pose proof (Z.mod_pos_bound len_reply 4 ltac:(lia)).
  pose proof (Z.mod_pos_bound (len_messages + len_reply) 4 ltac:(lia)).
  lia.
Qed.

Lemma replace_char_in old new s c :
  In c (list_ascii_of_string (replace_char old new s)) ->
  c = new \/ (c <> old /\ In c (list_ascii_of_string s)).
Proof.
  induction s as [|c0 s IH]; simpl; [tauto|].
  intros [Hc|Hin].
  - destruct (Ascii.eqb c0 old) eqn:E; [now left|].
    right. apply Ascii.eqb_neq in E. subst c. auto.
  - destruct (IH Hin) as [->|[Hne Hin']]; [now left | right; auto].
Qed.

(** X27.  The [X-Transcription] header written by
    [audio_response_from_base64] never holds a line feed or a carriage
    return, whatever the transcription. *)
Theorem transcription_header_is_one_line (transcription : string) (c : ascii) :
  In c (list_ascii_of_string (clean_trans transcription)) ->
  c <> lf /\ c <> cr.
Proof.
  intros Hin. unfold clean_trans in Hin.
  apply replace_char_in in Hin. destruct Hin as [->|[Hcr Hin]].
  - split; intros H; discriminate H.
  - apply replace_char_in in Hin. destruct Hin as [->|[Hlf _]].
    + split; intros H; discriminate H.
    + auto.
Qed.

Lemma transcription_header_is_one_line_witness :
  clean_trans ("turn left" ++ String lf "then right")%string =
  "turn left then right"%string /\
  " "%char <> lf /\ " "%char <> cr.
Proof.
  split; [reflexivity|].
  apply (transcription_header_is_one_line
           ("turn left" ++ String lf "then right")%string " "%char).
  vm_compute. tauto.
Defined.
End ResponseFacts.

(** ** The orchestrator and the conversation memory *)

Section MemoryTraffic.
Import RAGService.
Variable env : Env.

Ltac silent_step :=
  first
    [ apply emits_ret | apply emits_raise | apply emits_lift
    | apply emits_log; reflexivity
    | apply emits_call; reflexivity
    | apply emits_index_upsert; reflexivity
    | apply emits_index_query; reflexivity
    | apply emits_try; [|intros ?]
    | apply emits_bind; [|intros ?]
    | match goal with
      | |- emits _ (match ?x with _ => _ end) => destruct x
      | |- emits _ (if ?x then _ else _) => destruct x
      end ].

Lemma memory_calls_silent evs :
  Forall (fun e => memory_event e = false) evs -> memory_calls evs = [].
Proof.
  induction 1 as [|e evs He _ IH]; [reflexivity|].
  unfold memory_calls in *. simpl. rewrite IH.
  destruct e; try reflexivity. discriminate He.
Qed.

Lemma memory_calls_app evs1 evs2 :
  memory_calls (evs1 ++ evs2) = memory_calls evs1 ++ memory_calls evs2.
Proof. unfold memory_calls. apply flat_map_app. Qed.

Lemma memory_traffic_silent_bind {A B} (Q : result B -> _ -> Prop)
      (m : M A) (f : A -> M B) :
  emits (fun e => memory_event e = false) m ->
  (forall a, memory_traffic Q (f a)) ->
  (forall e, Q (Raise e) []) ->
  memory_traffic Q (bind m f).
Proof.
  intros Hm Hf Hraise w. destruct (Hm w) as (evs & E & Hall).
  apply memory_calls_silent in Hall. unfold bind.
  destruct (m w) as [[a|e] w1]; simpl in E.
  - destruct (Hf a w1) as (evs' & E' & HQ). exists (evs ++ evs').
    rewrite E', E, app_assoc, memory_calls_app, Hall. auto.
  - exists evs. simpl. rewrite Hall. auto.
Qed.

Lemma memory_traffic_after {A B} (Q : result B -> _ -> Prop) cs
      (m : M A) (f : A -> M B) :
  (forall w, exists a w1 evs,
      m w = (Ok a, w1) /\ trace w1 = trace w ++ evs /\ memory_calls evs = cs) ->
  (forall a, memory_traffic (fun r l => Q r (cs ++ l)) (f a)) ->
  memory_traffic Q (bind m f).
Proof.
  intros Hm Hf w. destruct (Hm w) as (a & w1 & evs & E & Et & Hcs).
  unfold bind. rewrite E.
  destruct (Hf a w1) as (evs' & E' & HQ). exists (evs ++ evs').
  rewrite E', Et, app_assoc, memory_calls_app, Hcs. auto.
Qed.

Lemma memory_step_calls u msgs w :
  exists a w1 evs,
    memory_step env u msgs w = (Ok a, w1) /\
    trace w1 = trace w ++ evs /\ memory_calls evs = [(u, msgs)].
Proof.
  unfold memory_step, try_except, call, bind, log, ret.
  destruct (process_conversation env (length (trace w)) u msgs) as [a|e].
  - eexists _, _, [EvMemory u msgs]. repeat split.
  - eexists _, _, [EvMemory u msgs; EvLog Error _]. repeat split.
    cbn [record trace]. now rewrite <- app_assoc.
Qed.

Lemma now_silent : emits (fun e => memory_event e = false) (now env).
Proof. unfold now. apply emits_call. reflexivity. Qed.

Lemma add_voice_profile_silent u name ts :
  emits (fun e => memory_event e = false)
        (add_voice_profile_to_vector_db env u name ts).
Proof.
  unfold add_voice_profile_to_vector_db.
  destruct name as [name|]; [|apply emits_ret].
  destruct (negb (PyStr.truthy name)); [apply emits_ret|].
  apply emits_bind.
  - destruct ts; [apply emits_ret | apply now_silent].
  - intros t. unfold get_embedding. repeat silent_step.
Qed.

Lemma modality_step_silent u msg it content :
  emits (fun e => memory_event e = false) (modality_step env u msg it content).
Proof.
  unfold modality_step, classify_voice_profile_from_text,
    AudioService.process_audio,
    AudioService._transcribe_audio, AudioService._analyze_emotion, chat.
  repeat first [apply add_voice_profile_silent | silent_step].
Qed.

Lemma rephrase_silent q hist :
  emits (fun e => memory_event e = false)
        (rephrase_query_with_context env q hist).
Proof. unfold rephrase_query_with_context, chat. repeat silent_step. Qed.

Lemma extract_key_info_silent text ctx :
  emits (fun e => memory_event e = false) (extract_key_info env text ctx).
Proof. unfold extract_key_info, chat. repeat silent_step. Qed.

Lemma add_extracted_info_silent u info ts :
  emits (fun e => memory_event e = false)
        (add_extracted_info_to_vector_db env u info ts).
Proof.
  unfold add_extracted_info_to_vector_db, upsert_extracted, get_embedding, now.
  repeat silent_step.
Qed.

Lemma build_relevant_context_silent u m :
  emits (fun e => memory_event e = false) (_build_relevant_context env u m).
Proof.
  unfold _build_relevant_context, retrieve_extracted_info, get_embedding.
  repeat silent_step.
Qed.

Lemma retrieve_semantic_context_silent u m :
  emits (fun e => memory_event e = false) (_retrieve_semantic_context env u m).
Proof.
  unfold _retrieve_semantic_context, get_embedding. repeat silent_step.
Qed.

(** X28.  A text or audio request reaches the memory service twice, and
    nowhere else: once with the history and the user's message as received,
    before anything else is done, and, when the chat endpoint has answered,
    once more with the same messages followed by the reply; when the
    endpoint fails only the first call was made.  Served by the memory
    service, the two calls advance the user's counter by two and store the
    history and the user's message twice. *)
Theorem answered_request_is_stored_twice
        (user_id user_message : string) (chat_history : list Message)
        (input_type : string) (content : option Content) :
  input_type = "text"%string \/ input_type = "audio"%string ->
  let memory_messages :=
    chat_history ++ [mkMessage "user" (Str user_message)] in
  let full_conversation reply :=
    memory_messages ++ [mkMessage "assistant" (Str reply)] in
  memory_traffic
    (fun r calls =>
       match r with
       | Ok (reply, _) =>
           calls = [(user_id, memory_messages);
                    (user_id, full_conversation reply)]
       | Raise _ => calls = [(user_id, memory_messages)]
       end)
    (rag_pipeline env user_id user_message chat_history input_type content) /\
  forall st t1 t2 reply,
    let st' := MemoryService.run st
                 [(t1, user_id, memory_messages);
                  (t2, user_id, full_conversation reply)] in
    MemoryService.history_of st' user_id =
    MemoryService.history_of st user_id
    ++ memory_messages ++ full_conversation reply /\
    MemoryService.interactions_of st' user_id =
    MemoryService.interactions_of st user_id + 2.
Proof.
  intros Hit memory_messages full_conversation. split.
  - unfold rag_pipeline. fold memory_messages.
    apply (memory_traffic_after _ [(user_id, memory_messages)]);
      [apply memory_step_calls|]. intros mem.
    apply memory_traffic_silent_bind;
      [apply modality_step_silent | | reflexivity].
    intros [[msg' style] vp].
    apply memory_traffic_silent_bind; [apply rephrase_silent | | reflexivity].
    intros rq.
    apply memory_traffic_silent_bind;
      [apply extract_key_info_silent | | reflexivity].
    intros ex.
    apply memory_traffic_silent_bind;
      [apply add_extracted_info_silent | | reflexivity].
    intros _.
    apply memory_traffic_silent_bind;
      [apply build_relevant_context_silent | | reflexivity].
    intros rc.
    apply memory_traffic_silent_bind;
      [apply retrieve_semantic_context_silent | | reflexivity].
    intros sc.
    assert (Hboth : (String.eqb input_type "text"
                     || String.eqb input_type "audio")%bool = true).
    { destruct Hit as [-> | ->]; reflexivity. }
    rewrite Hboth. intros w.
    unfold bind, try_except, call, log, ret.
    destruct (send_chat env (length (trace w)) user_id _ "text")
      as [reply|e] eqn:Es.
    + cbn [fst snd].
      destruct (process_conversation env _ user_id _) as [a|e].
      * eexists [EvSendChat user_id _ "text"; EvMemory user_id _].
        cbn [record trace fst snd]. rewrite <- app_assoc. split; reflexivity.
      * eexists [EvSendChat user_id _ "text"; EvMemory user_id _;
                 EvLog Error _].
        cbn [record trace fst snd]. rewrite <- !app_assoc. split; reflexivity.
    + eexists [EvSendChat user_id _ "text"]. split; reflexivity.
  - intros st t1 t2 reply st'.
    destruct (run_accumulates
                [(t1, user_id, memory_messages);
                 (t2, user_id, full_conversation reply)] st user_id)
      as (Hh & Hi & _).
    fold st' in Hh, Hi. rewrite Hh, Hi.
    unfold MemoryService.messages_of, MemoryService.calls_of.
    cbn [List.filter fst snd]. rewrite String.eqb_refl.
    cbn [flat_map length snd]. rewrite app_nil_r. split; [reflexivity | lia].
Qed.
End MemoryTraffic.

Lemma answered_request_is_stored_twice_witness :
  exists evs,
    trace (snd (RAGService.rag_pipeline
                  (Sample.env Sample.terse_model) "alice" "hello" [] "text"
                  None Sample.empty_world)) = evs /\
    memory_calls evs =
    [("alice"%string, [mkMessage "user" (Str "hello")]);
     ("alice"%string, [mkMessage "user" (Str "hello");
                       mkMessage "assistant" (Str "reply")])].
Proof.
  destruct (proj1 (answered_request_is_stored_twice
                     (Sample.env Sample.terse_model) "alice" "hello" [] "text"
                     None (or_introl eq_refl)) Sample.empty_world)
    as (evs & Ht & Hcalls).
  exists evs. split; [exact Ht | exact Hcalls].
Defined.
